(** * bin/resources.py: fetching, extracting and loading the word embeddings

    A shallow embedding of [download_embedding], [download_file] and
    [create_embedding_matrix].  The functions run in a small monad over an
    explicit world (the files on disk and the sequence of effects performed)
    and an environment that fixes what the program cannot control: the
    server, the usable paths, the gzip decoder, the configuration and the
    word-vector decoder.  The module is Python 2 code ([logging.warn],
    [model.syn0], byte strings written to a file opened in text mode), and
    it is read as such. *)

From Stdlib Require Import ZArith.
From Stdlib.Strings Require Import Byte Ascii.
From stdpp Require Import base option list strings gmap fin_maps pretty.

(** ** The Python runtime, as far as the module uses it *)
Module Py.

Inductive exn : Set :=
| IOError          (* open() on a path that cannot be opened, corrupt gzip data *)
| ConnectionError  (* requests: the transport failed *)
| ValueError       (* min()/max() of an empty sequence, malformed vector file *)
| RuntimeError.    (* maximum recursion depth exceeded *)

Inductive result (A : Type) : Type :=
| Ok (a : A)
| Raise (e : exn).
Arguments Ok {A} a.
Arguments Raise {A} e.

Inductive log_level : Set := DEBUG | INFO | WARNING.

(** The calls the program makes to the outside, in the order it makes
    them; a call is recorded whether it succeeds or raises. *)
Inductive event : Type :=
| HttpGet (url : string)                 (* requests.get(url, stream=True) *)
| HttpClose (url : string)               (* r.close() *)
| Open (path mode : string)              (* open(path, mode) *)
| FileWrite (path : string) (data : list byte)
| Close (path : string)
| GzipOpen (path : string)               (* gzip.open(path, 'rb') *)
| GzipClose (path : string)
| Log (level : log_level) (msg : string) (* logging.debug/info/warn *)
| Stdout (msg : string).

(** An HTTP response as [requests] hands it over: the status line, the
    bytes of the body that arrive, and whether the transfer breaks off
    after them. *)
Record response : Type := {
  status_code : Z;
  content : list byte;
  interrupted : bool
}.

(** A word-vector file once decoded: the dimensionality of its header and
    one record per word, in file order.  Weights are the bit patterns of
    the 32-bit floats; nothing here computes with them. *)
Record word2vec_file : Type := {
  vector_size : nat;
  records : list (string * list Z)
}.

(** What a run cannot change:
    - [server]: what a GET of a URL meets, a response or the exception of
      a failed transport;
    - [writable]: the paths that [open] can open for writing;
    - [gzip_read]: the bytes the gzip decoder delivers for a file and
      whether it reaches the end of the stream without raising;
    - [conf]: the configuration behind [lib.get_conf];
    - [word2vec_decode]: the decoding of the binary word-vector format. *)
Record env : Type := {
  server : string → result response;
  writable : string → bool;
  gzip_read : list byte → list byte * bool;
  conf : string → string;
  word2vec_decode : list byte → option word2vec_file
}.

(** What a run changes: the files on disk, by path, and the calls made. *)
Record world : Type := {
  fs : gmap string (list byte);
  trace : list event
}.

(** A computation reads the environment, changes the world and returns or
    raises; the world it leaves behind stays as it is when it raises. *)
Definition IO (A : Type) : Type := env → world → result A * world.

#[global] Instance IO_ret : MRet IO := λ A a _ w, (Ok a, w).
#[global] Instance IO_bind : MBind IO := λ A B f m E w,
  match m E w with
  | (Ok a, w') => f a E w'
  | (Raise e, w') => (Raise e, w')
  end.

Definition raise {A} (e : exn) : IO A := λ _ w, (Raise e, w).

Definition lift {A} (r : result A) : IO A := λ _ w, (r, w).

(** Runs [m] and hands back its outcome instead of propagating it. *)
Definition attempt {A} (m : IO A) : IO (result A) := λ E w,
  let '(r, w') := m E w in (Ok r, w').

Definition ask : IO env := λ E w, (Ok E, w).

Definition emit (ev : event) : IO unit := λ _ w,
  (Ok tt, {| fs := fs w; trace := trace w ++ [ev] |}).

Definition read_fs : IO (gmap string (list byte)) := λ _ w, (Ok (fs w), w).

Definition write_fs (f : gmap string (list byte) → gmap string (list byte)) : IO unit :=
  λ _ w, (Ok tt, {| fs := f (fs w); trace := trace w |}).

(** [with enter as x: body], for a context manager whose [__exit__]
    releases the resource and lets an exception of the body through. *)
Definition with_ {A} (enter : IO unit) (exit : IO unit) (body : IO A) : IO A :=
  enter;; r ← attempt body; exit;; lift r.

(** [for x in xs: body], threading the local variables [s] of the loop.
    The iterable is a list of items and, when the generator behind it
    ends by raising, the exception. *)
Fixpoint for_in {A S} (xs : list A) (s : S) (body : A → S → IO S) : IO S :=
  match xs with
  | [] => mret s
  | x :: xs' => s' ← body x s; for_in xs' s' body
  end.

Definition for_stream {A S} (xs : list A * option exn) (s : S)
    (body : A → S → IO S) : IO S :=
  s' ← for_in xs.1 s body;
  match xs.2 with
  | None => mret s'
  | Some e => raise e
  end.

(** *** logging, print *)
Definition logging (level : log_level) (msg : string) : IO unit := emit (Log level msg).
Definition print (msg : string) : IO unit := emit (Stdout msg).

(** *** os.path, open *)
Definition os_path_exists (path : string) : IO bool :=
  files ← read_fs; mret (bool_decide (is_Some (files !! path))).

(** [open(path, mode)] for the truncating modes 'wb' and 'w+' (the only
    ones used).  On the POSIX systems the module was run on, text mode
    writes byte strings through unchanged. *)
Definition open_w (path mode : string) : IO unit :=
  emit (Open path mode);;
  E ← ask;
  if writable E path then write_fs (<[path := []]>) else raise IOError.

Definition file_write (path : string) (data : list byte) : IO unit :=
  emit (FileWrite path data);;
  write_fs (λ files, <[path := default [] (files !! path) ++ data]> files).

Definition file_close (path : string) : IO unit := emit (Close path).

(** *** requests *)
Definition requests_get (url : string) : IO response :=
  emit (HttpGet url);; E ← ask; lift (server E url).

Definition response_close (url : string) : IO unit := emit (HttpClose url).

(** Up to [amt] bytes off the front of [data], and what is left. *)
Fixpoint read_amt (amt : N) (data : list byte) : list byte * list byte :=
  match data with
  | [] => ([], [])
  | b :: rest =>
      if (amt =? 0)%N then ([], data)
      else let '(c, r) := read_amt (N.pred amt) rest in (b :: c, r)
  end.

(** [data] cut into pieces of [chunk_size] bytes.  [fuel] bounds the
    number of pieces; the length of [data] is always enough. *)
Fixpoint chunks_of (fuel : nat) (chunk_size : N) (data : list byte) : list (list byte) :=
  match fuel, data with
  | _, [] => []
  | 0, _ => []
  | S fuel', _ =>
      let '(c, r) := read_amt chunk_size data in
      c :: chunks_of fuel' chunk_size r
  end.

(** [r.iter_content(chunk_size)]: the body [chunk_size] bytes at a time,
    the last chunk holding the remainder. *)
Definition iter_content (r : response) (chunk_size : N) : list (list byte) * option exn :=
  (chunks_of (length (content r)) chunk_size (content r),
   if interrupted r then Some ConnectionError else None).

(** *** gzip *)
Definition gzip_open (path : string) : IO unit :=
  emit (GzipOpen path);;
  present ← os_path_exists path;
  if (present : bool) then mret tt else raise IOError.

Definition gzip_close (path : string) : IO unit := emit (GzipClose path).

Definition is_newline (b : byte) : bool := Byte.eqb b x0a.

(** The lines of a byte string, each keeping its terminator. *)
Fixpoint readlines (data : list byte) : list (list byte) :=
  match data with
  | [] => []
  | b :: rest =>
      if is_newline b then [b] :: readlines rest
      else match readlines rest with
           | [] => [[b]]
           | l :: ls => (b :: l) :: ls
           end
  end.

(** [for line in zipped]: the decoder is read when the loop starts. *)
Definition gzip_lines (path : string) : IO (list (list byte) * option exn) :=
  E ← ask; files ← read_fs;
  let '(data, clean) := gzip_read E (default [] (files !! path)) in
  mret (readlines data, if clean then None else Some IOError).

(** *** min, max *)
Definition py_min (xs : list nat) : result nat :=
  match xs with
  | [] => Raise ValueError
  | x :: xs' => Ok (foldl Nat.min x xs')
  end.

Definition py_max (xs : list nat) : result nat :=
  match xs with
  | [] => Raise ValueError
  | x :: xs' => Ok (foldl Nat.max x xs')
  end.

End Py.

(** ** gensim: [KeyedVectors.load_word2vec_format]

    The loader is a library call; what follows gives it the behaviour the
    specification relies on. *)
Module Gensim.
Import Py.

Record Vocab : Type := { index : nat; count : nat }.

Record ndarray : Type := { shape : nat * nat; rows : list (list Z) }.

Record KeyedVectors : Type := { syn0 : ndarray; vocab : gmap string Vocab }.

(** Every record carries as many weights as the header announces. *)
Definition well_sized (f : word2vec_file) : bool :=
  forallb (λ r : string * list Z, length r.2 =? vector_size f) (records f).

(** Modelled from the spec: the loader's step for one record.  A word met
    for the first time takes the next free row; a word met again is
    ignored. *)
Definition add_word (vocab_size : nat) (acc : gmap string Vocab * list (list Z))
    (r : string * list Z) : gmap string Vocab * list (list Z) :=
  let word_id := size acc.1 in
  match acc.1 !! r.1 with
  | Some _ => acc
  | None =>
      (<[r.1 := {| index := word_id; count := vocab_size - word_id |}]> acc.1,
       acc.2 ++ [r.2])
  end.

(** Modelled from the spec: the loader's result for a decoded file, the
    matrix with one row per word and the vocabulary with each word's row. *)
Definition load_records (f : word2vec_file) : KeyedVectors :=
  let acc := foldl (add_word (length (records f))) (∅, []) (records f) in
  {| syn0 := {| shape := (size acc.1, vector_size f); rows := acc.2 |};
     vocab := acc.1 |}.

(** Modelled from the spec: the binary word-vector loader is a library
    call, not code of this repository.  It reads the file at [fname],
    decodes the header and one record per word, and yields the matrix
    with one row per word and the vocabulary with each word's row. *)
Definition load_word2vec_format (fname : string) : IO KeyedVectors :=
  files ← read_fs;
  match files !! fname with
  | None => raise IOError
  | Some data =>
      with_ (emit (Open fname "rb")) (file_close fname)
        (E ← ask;
         match word2vec_decode E data with
         | None => raise ValueError
         | Some f => if well_sized f then mret (load_records f) else raise ValueError
         end)
  end.

End Gensim.

(** ** bin/resources.py *)
Module Resources.
Import Py Gensim.

(** [lib.get_conf]: the configuration lookup. *)
Definition get_conf (key : string) : IO string := E ← ask; mret (conf E key).

(** *** download_file *)
Definition download_file (url local_file_path : string) : IO string :=
  let chunk_count := 0 in
  r ← requests_get url;
  with_ (open_w local_file_path "wb") (file_close local_file_path)
    (for_stream (iter_content r 1048576) chunk_count (λ chunk chunk_count,
       logging DEBUG ("Downloading chunk: " +:+ pretty chunk_count
                      +:+ " for file: " +:+ local_file_path);;
       match chunk with
       | [] => mret tt
       | _ :: _ => file_write local_file_path chunk
       end;;
       mret (chunk_count + 1)));;
  response_close url;;
  mret local_file_path.

(** *** download_embedding *)
Definition embedding_download_link : string :=
  "https://s3.amazonaws.com/dl4j-distribution/GoogleNews-vectors-negative300.bin.gz".

Definition embedding_downloaded_path : string :=
  "../resources/compressed/GoogleNews-vectors-negative300.bin.gz".

(** Lines 32-40: download embeddings, if necessary. *)
Definition download_if_necessary : IO unit :=
  present ← os_path_exists embedding_downloaded_path;
  if negb present then
    logging WARNING
      ("embedding_downloaded_path does not yet exist. Downloading embedding. This occurs once, and will take "
       +:+ "10-20 minutes (due to large file size)");;
    print
      ("embedding_downloaded_path does not yet exist. Downloading embedding. This occurs once, and will take "
       +:+ "10-20 minutes (due to large file size)");;
    logging INFO ("Downloading embedding data from: " +:+ embedding_download_link
                  +:+ " to: " +:+ embedding_downloaded_path);;
    download_file embedding_download_link embedding_downloaded_path;;
    mret tt
  else mret tt.

(** Lines 48-51: the two files are opened in turn, the lines copied, and
    both closed on the way out. *)
Definition extract (src dst : string) : IO unit :=
  with_ (gzip_open src) (gzip_close src)
    (with_ (open_w dst "w+") (file_close dst)
       (zipped ← gzip_lines src;
        for_stream zipped tt (λ line _, file_write dst line))).

(** Lines 43-51: extract embeddings, if necessary. *)
Definition extract_if_necessary : IO unit :=
  embedding_path ← get_conf "embedding_path";
  present ← os_path_exists embedding_path;
  if negb present then
    logging WARNING "embedding_path does not exist. Extracting embedding.";;
    embedding_path ← get_conf "embedding_path";
    logging INFO ("Extracting embedding data from: " +:+ embedding_downloaded_path
                  +:+ " to: " +:+ embedding_path);;
    embedding_path ← get_conf "embedding_path";
    extract embedding_downloaded_path embedding_path
  else mret tt.

Definition download_embedding : IO unit :=
  logging INFO "Attempting to either validate or download and extract embeddings.";;
  download_if_necessary;;
  extract_if_necessary;;
  embedding_path ← get_conf "embedding_path";
  logging INFO ("Embeddings available at: " +:+ embedding_path).

(** *** create_embedding_matrix *)

(** [defaultdict(lambda: word_to_index['UNK'])], once line 116 has bound
    the name [word_to_index] to the defaultdict itself: the factory reads
    "UNK" from the very mapping it serves.  [d[key]] answers from the
    entries when it can; otherwise [__missing__] calls the factory, one
    Python frame deeper, and stores what it returns under [key].  [limit]
    is the number of frames left before the interpreter gives up. *)
Fixpoint getitem (limit : nat) (d : gmap string nat) (key : string)
    : result nat * gmap string nat :=
  match d !! key with
  | Some v => (Ok v, d)
  | None =>
      match limit with
      | 0 => (Raise RuntimeError, d)
      | S limit' =>
          match getitem limit' d "UNK" with
          | (Ok v, d') => (Ok v, <[key := v]> d')
          | (Raise e, d') => (Raise e, d')
          end
      end
  end.

(** [d.update(other)] on a fresh defaultdict. *)
Definition update (d other : gmap string nat) : gmap string nat := other ∪ d.

Definition values (d : gmap string nat) : list nat := (map_to_list d).*2.

(** [str] of a shape tuple. *)
Definition str_shape (s : nat * nat) : string :=
  "(" +:+ pretty s.1 +:+ ", " +:+ pretty s.2 +:+ ")".

Definition create_embedding_matrix : IO (ndarray * gmap string nat) :=
  logging INFO "Reading embedding matrix and word to index dictionary from file";;
  embedding_path ← get_conf "embedding_path";
  model ← load_word2vec_format embedding_path;
  let embedding_matrix := syn0 model in
  let word_to_index : gmap string nat := index <$> vocab model in
  let default_dict_instance : gmap string nat := ∅ in
  let default_dict_instance := update default_dict_instance word_to_index in
  let word_to_index := default_dict_instance in
  logging INFO ("Created embedding matrix, of shape: " +:+ str_shape (shape embedding_matrix));;
  lo ← lift (py_min (values word_to_index));
  hi ← lift (py_max (values word_to_index));
  logging INFO ("Created word to index lookup, with min index: " +:+ pretty lo
                +:+ ", max index: " +:+ pretty hi);;
  mret (embedding_matrix, word_to_index).

(** A caller looking up [keys] one after the other in the returned
    mapping, going on after a lookup that raised. *)
Fixpoint lookups (limit : nat) (d : gmap string nat) (keys : list string)
    : list (result nat) * gmap string nat :=
  match keys with
  | [] => ([], d)
  | k :: keys' =>
      let '(r, d') := getitem limit d k in
      let '(rs, d'') := lookups limit d' keys' in
      (r :: rs, d'')
  end.

End Resources.

(** ** Concrete environments and inputs, for checking the statements *)
Module Fixtures.
Import Py Gensim Resources.

Definition b (s : string) : list byte := String.list_byte_of_string s.

(** A stand-in decoder: after the two magic bytes the payload is stored
    as it is; an empty file is an empty stream; anything else is corrupt. *)
Definition stored_gzip (data : list byte) : list byte * bool :=
  match data with
  | [] => ([], true)
  | x1f :: x8b :: payload => (payload, true)
  | _ => ([], false)
  end.

Definition embedding_path : string := "../resources/GoogleNews-vectors-negative300.bin".

Definition conf0 (key : string) : string :=
  if String.eqb key "embedding_path" then embedding_path else "".

Definition archive : list byte := [x1f; x8b] ++ b ("3 4" +:+ String "010"%char "UNK cat dog").

Definition missing_url : string := "http://example.test/missing".
Definition empty_url : string := "http://example.test/empty".

Definition server0 (url : string) : result response :=
  if String.eqb url embedding_download_link then
    Ok {| status_code := 200; content := archive; interrupted := false |}
  else if String.eqb url missing_url then
    Ok {| status_code := 404; content := b "Not Found"; interrupted := false |}
  else if String.eqb url empty_url then
    Ok {| status_code := 200; content := []; interrupted := false |}
  else Raise ConnectionError.

(** Three words of dimensionality four, "UNK" among them. *)
Definition three_by_four : word2vec_file :=
  {| vector_size := 4;
     records := [("cat", [1065353216; 0; 0; 0]%Z);
                 ("UNK", [0; 0; 0; 0]%Z);
                 ("dog", [0; 1065353216; 0; 1073741824]%Z)] |}.

(** The same without "UNK". *)
Definition two_by_four : word2vec_file :=
  {| vector_size := 4;
     records := [("cat", [1065353216; 0; 0; 0]%Z);
                 ("dog", [0; 1065353216; 0; 1073741824]%Z)] |}.

Definition decode_as (f : word2vec_file) (data : list byte) : option word2vec_file :=
  match data with
  | [] => None
  | _ :: _ => Some f
  end.

Definition env_with (srv : string → result response) (f : word2vec_file) : env :=
  {| server := srv; writable := λ _, true; gzip_read := stored_gzip;
     conf := conf0; word2vec_decode := decode_as f |}.

Definition env0 : env := env_with server0 three_by_four.
Definition env_no_unk : env := env_with server0 two_by_four.

(** The server answers every request with an empty body. *)
Definition env_empty_body : env :=
  env_with (λ _, Ok {| status_code := 200; content := []; interrupted := false |})
           three_by_four.

(** No connection can be made. *)
Definition env_offline : env := env_with (λ _, Raise ConnectionError) three_by_four.

(** The mapping for [three_by_four]. *)
Definition mapping0 : gmap string nat := {[ "cat" := 0; "UNK" := 1; "dog" := 2 ]}.

Definition fresh : world := {| fs := ∅; trace := [] |}.

Definition both_present : world :=
  {| fs := {[ embedding_downloaded_path := archive;
              embedding_path := b "3 4" ]};
     trace := [] |}.

Definition vectors_present : world :=
  {| fs := {[ embedding_path := b "3 4" ]}; trace := [] |}.

(** The mapping for [two_by_four]. *)
Definition mapping_no_unk : gmap string nat := {[ "cat" := 0; "dog" := 1 ]}.

(** The transfer breaks off after four bytes. *)
Definition env_cut : env :=
  env_with (λ _, Ok {| status_code := 200; content := b "part"; interrupted := true |})
           three_by_four.

(** No path can be opened for writing. *)
Definition env_readonly : env :=
  {| server := server0; writable := λ _, false; gzip_read := stored_gzip;
     conf := conf0; word2vec_decode := decode_as three_by_four |}.

(** The configuration names the archive's own path. *)
Definition env_alias : env :=
  {| server := server0; writable := λ _, true; gzip_read := stored_gzip;
     conf := λ _, embedding_downloaded_path; word2vec_decode := decode_as three_by_four |}.

(** A vector file with a header and no record. *)
Definition no_records : word2vec_file := {| vector_size := 4; records := [] |}.

Definition env_no_records : env := env_with server0 no_records.

(** Only the archive is on disk, sound or not a gzip file at all. *)
Definition archive_present : world :=
  {| fs := {[ embedding_downloaded_path := archive ]}; trace := [] |}.

Definition corrupt_archive_present : world :=
  {| fs := {[ embedding_downloaded_path := b "garbage" ]}; trace := [] |}.

(** Another file lies beside the two. *)
Definition notes_present : world :=
  {| fs := {[ "notes.txt" := b "keep" ]}; trace := [] |}.

End Fixtures.

(** ** Reading a run: what was called, what was written *)
Module Observe.
Import Py.

Definition is_http_get (ev : event) : bool :=
  match ev with HttpGet _ => true | _ => false end.

Definition is_gzip_open (ev : event) : bool :=
  match ev with GzipOpen _ => true | _ => false end.

(** Network calls and decompressions among the events. *)
Definition network_calls (evs : list event) : nat := length (filter is_http_get evs).
Definition decompressions (evs : list event) : nat := length (filter is_gzip_open evs).

(** The byte strings written to [path], in order. *)
Definition writes_to (path : string) (evs : list event) : list (list byte) :=
  omap (λ ev, match ev with
              | FileWrite p data => if String.eqb p path then Some data else None
              | _ => None
              end) evs.

(** What the loop of [download_file] does with the chunks it is handed,
    [chunk_count] being the number of the first. *)
Fixpoint chunk_events (dest : string) (chunk_count : nat) (chunks : list (list byte))
    : list event :=
  match chunks with
  | [] => []
  | c :: cs =>
      Log DEBUG ("Downloading chunk: " +:+ pretty chunk_count +:+ " for file: " +:+ dest)
      :: match c with [] => [] | _ :: _ => [FileWrite dest c] end
      ++ chunk_events dest (chunk_count + 1) cs
  end.

(** The events of a download that runs to its end. *)
Definition download_events (url dest : string) (chunks : list (list byte)) : list event :=
  [HttpGet url; Open dest "wb"] ++ chunk_events dest 0 chunks
  ++ [Close dest; HttpClose url].

(** The events of an extraction that copies [lines]. *)
Definition extract_events (src dst : string) (lines : list (list byte)) : list event :=
  [GzipOpen src; Open dst "w+"] ++ (FileWrite dst <$> lines) ++ [Close dst; GzipClose src].

(** What [download_embedding] says before it downloads. *)
Definition download_notice : list event :=
  [Log WARNING
     ("embedding_downloaded_path does not yet exist. Downloading embedding. This occurs once, and will take "
      +:+ "10-20 minutes (due to large file size)");
   Stdout
     ("embedding_downloaded_path does not yet exist. Downloading embedding. This occurs once, and will take "
      +:+ "10-20 minutes (due to large file size)");
   Log INFO ("Downloading embedding data from: " +:+ Resources.embedding_download_link
             +:+ " to: " +:+ Resources.embedding_downloaded_path)].

(** What it says before it extracts to [embedding_path]. *)
Definition extract_notice (embedding_path : string) : list event :=
  [Log WARNING "embedding_path does not exist. Extracting embedding.";
   Log INFO ("Extracting embedding data from: " +:+ Resources.embedding_downloaded_path
             +:+ " to: " +:+ embedding_path)].

(** What it says first and last. *)
Definition start_notice : event :=
  Log INFO "Attempting to either validate or download and extract embeddings.".

Definition done_notice (embedding_path : string) : event :=
  Log INFO ("Embeddings available at: " +:+ embedding_path).

(** The request for [url] is answered in full and [dest] can be opened. *)
Definition fetchable (E : env) (url dest : string) : Prop :=
  ∃ r, server E url = Ok r ∧ interrupted r = false ∧ writable E dest = true.

(** [w] after the calls [evs]. *)
Definition log_events (w : world) (evs : list event) : world :=
  {| fs := fs w; trace := trace w ++ evs |}.

(** A line: bytes other than the newline, then the newline; the last line
    of a byte string may instead end without one. *)
Definition is_line (last : bool) (l : list byte) : Prop :=
  ∃ body, Forall (λ x, is_newline x = false) body
          ∧ (l = body ++ [x0a] ∨ (last = true ∧ l = body ∧ body ≠ [])).

(** The events of a run that started in [w] and ended in [w']. *)
Definition new_events (w w' : world) : list event := drop (length (trace w)) (trace w').

Definition present (w : world) (path : string) : bool :=
  bool_decide (is_Some (fs w !! path)).

(** [w] after one more call. *)
Definition log_event (w : world) (ev : event) : world :=
  {| fs := fs w; trace := trace w ++ [ev] |}.

(** Neither a network call nor a decompression. *)
Definition quiet (ev : event) : Prop := is_http_get ev = false ∧ is_gzip_open ev = false.

(** Every event that [m] adds to the trace satisfies [P], however it ends. *)
Definition emits {A} (P : event → Prop) (m : IO A) : Prop :=
  ∀ E w, ∃ evs, trace (m E w).2 = trace w ++ evs ∧ Forall P evs.

Definition is_http_close (ev : event) : bool :=
  match ev with HttpClose _ => true | _ => false end.

(** Connections closed among the events. *)
Definition closed_connections (evs : list event) : nat :=
  length (filter is_http_close evs).

Definition is_debug_log (ev : event) : bool :=
  match ev with Log DEBUG _ => true | _ => false end.

(** Passes of the loop of [download_file], one debug log call each. *)
Definition chunks_logged (evs : list event) : nat := length (filter is_debug_log evs).

(** [m] changes no file, however it ends. *)
Definition reads_only {A} (m : IO A) : Prop := ∀ E w, fs (m E w).2 = fs w.

(** What a lookup of [key] answers in a mapping with "UNK" at row [u]. *)
Definition resolve (u : nat) (d : gmap string nat) (key : string) : nat :=
  default u (d !! key).

End Observe.

(** * Properties *)
Import Py Gensim Resources Observe.

(** ** The monad *)
Section Monad.
Context {A B : Type}.

Lemma bind_ok (m : IO A) (f : A → IO B) E w a w' :
  m E w = (Ok a, w') → (m ≫= f) E w = f a E w'.
Proof. intros H. unfold mbind, IO_bind. by rewrite H. Qed.

Lemma bind_raise (m : IO A) (f : A → IO B) E w e w' :
  m E w = (Raise e, w') → (m ≫= f) E w = (Raise e, w').
Proof. intros H. unfold mbind, IO_bind. by rewrite H. Qed.

Lemma emits_ret P (a : A) : emits P (mret a).
Proof. intros E w. exists []. by rewrite app_nil_r. Qed.

Lemma emits_raise P e : emits P (raise e : IO A).
Proof. intros E w. exists []. by rewrite app_nil_r. Qed.

Lemma emits_lift P (r : result A) : emits P (lift r).
Proof. intros E w. exists []. by rewrite app_nil_r. Qed.

Lemma emits_bind P (m : IO A) (f : A → IO B) :
  emits P m → (∀ a, emits P (f a)) → emits P (m ≫= f).
Proof.
  intros Hm Hf E w. destruct (Hm E w) as (evs & Ht & HP).
  destruct (m E w) as [[a|e] w1] eqn:Hrun; simpl in Ht.
  - rewrite (bind_ok _ _ _ _ _ _ Hrun).
    destruct (Hf a E w1) as (evs' & Ht' & HP').
    exists (evs ++ evs'). rewrite Ht', Ht, app_assoc.
    split; [done|]. by apply Forall_app.
  - rewrite (bind_raise _ _ _ _ _ _ Hrun). by exists evs.
Qed.

Lemma emits_attempt P (m : IO A) : emits P m → emits P (attempt m).
Proof.
  intros Hm E w. destruct (Hm E w) as (evs & Ht & HP).
  exists evs. unfold attempt. by destruct (m E w).
Qed.

End Monad.

Lemma emits_emit (P : event → Prop) ev : P ev → emits P (emit ev).
Proof. intros HP E w. exists [ev]. split; [done|]. by constructor. Qed.

Lemma emits_ask P : emits P ask.
Proof. intros E w. exists []. by rewrite app_nil_r. Qed.

Lemma emits_read_fs P : emits P read_fs.
Proof. intros E w. exists []. by rewrite app_nil_r. Qed.

Lemma emits_write_fs P f : emits P (write_fs f).
Proof. intros E w. exists []. simpl. by rewrite app_nil_r. Qed.

Lemma emits_with {A} P (enter exit : IO unit) (body : IO A) :
  emits P enter → emits P exit → emits P body → emits P (with_ enter exit body).
Proof.
  intros He Hx Hb. unfold with_.
  apply emits_bind; [done|]. intros _.
  apply emits_bind; [by apply emits_attempt|]. intros r.
  apply emits_bind; [done|]. intros _. apply emits_lift.
Qed.

Lemma emits_for_in {A S} P (xs : list A) (body : A → S → IO S) :
  (∀ x s, emits P (body x s)) → ∀ s, emits P (for_in xs s body).
Proof.
  intros Hb. induction xs as [|x xs IH]; intros s; simpl.
  - apply emits_ret.
  - apply emits_bind; [apply Hb|]. intros s'. apply IH.
Qed.

Lemma emits_for_stream {A S} P (xs : list A * option exn) (s : S) (body : A → S → IO S) :
  (∀ x s, emits P (body x s)) → emits P (for_stream xs s body).
Proof.
  intros Hb. unfold for_stream.
  apply emits_bind; [by apply emits_for_in|]. intros s'.
  destruct xs.2; [apply emits_raise | apply emits_ret].
Qed.

(** Runs down a program built from binds, branches and the primitives,
    leaving the conditions on single events. *)
Ltac emits_steps :=
  repeat first
    [ match goal with |- ∀ _, _ => intro end
    | apply emits_ret | apply emits_raise | apply emits_lift | apply emits_ask
    | apply emits_read_fs | apply emits_write_fs | apply emits_attempt
    | apply emits_with | apply emits_for_stream | apply emits_bind
    | apply emits_emit
    | match goal with
      | |- emits _ (if ?c then _ else _) => destruct c
      | |- emits _ (match ?c with _ => _ end) => destruct c
      | |- emits _ (let '(_, _) := ?c in _) => destruct c
      end ].


(** ** Chunks and lines *)
Lemma read_amt_app n data c r : read_amt n data = (c, r) → data = c ++ r.
Proof.
  revert n c r. induction data as [|x data IH]; intros n c r; simpl.
  - by intros [= <- <-].
  - destruct (n =? 0)%N; [by intros [= <- <-]|].
    destruct (read_amt (N.pred n) data) as [c' r'] eqn:Hrd.
    intros [= <- <-]. simpl. f_equal. by eapply IH.
Qed.

Lemma read_amt_length n data c r :
  read_amt n data = (c, r) → N.of_nat (length c) = N.min n (N.of_nat (length data)).
Proof.
  revert n c r. induction data as [|x data IH]; intros n c r; simpl length.
  - intros [= <- <-]. simpl. lia.
  - simpl. destruct (N.eqb_spec n 0) as [->|Hn]; [intros [= <- <-]; simpl; lia|].
    destruct (read_amt (N.pred n) data) as [c' r'] eqn:Hrd.
    intros [= <- <-]. apply IH in Hrd. simpl length. lia.
Qed.

Lemma chunks_of_concat fuel n data :
  (0 < n)%N → length data ≤ fuel → concat (chunks_of fuel n data) = data.
Proof.
  intros Hn. revert data. induction fuel as [|fuel IH]; intros data Hlen.
  - destruct data; [done|simpl in Hlen; lia].
  - destruct data as [|x data]; [done|].
    cbn [chunks_of]. destruct (read_amt n (x :: data)) as [c r] eqn:Hrd.
    pose proof (read_amt_app _ _ _ _ Hrd) as Happ.
    pose proof (read_amt_length _ _ _ _ Hrd) as Hc.
    simpl. rewrite IH; [done|].
    apply (f_equal length) in Happ. rewrite length_app in Happ.
    simpl in Happ, Hlen, Hc. lia.
Qed.

Lemma chunks_of_sizes fuel n data :
  (0 < n)%N → length data ≤ fuel →
  Forall (λ c, 0 < length c ∧ (N.of_nat (length c) ≤ n)%N) (chunks_of fuel n data)
  ∧ ∀ i c, chunks_of fuel n data !! i = Some c →
           S i < length (chunks_of fuel n data) → N.of_nat (length c) = n.
Proof.
  intros Hn. revert data. induction fuel as [|fuel IH]; intros data Hlen.
  - destruct data; [|simpl in Hlen; lia]. split; [constructor|]. intros i c Hi. done.
  - destruct data as [|x data]; [split; [constructor|done]|].
    cbn [chunks_of]. destruct (read_amt n (x :: data)) as [c r] eqn:Hrd.
    pose proof (read_amt_app _ _ _ _ Hrd) as Happ.
    pose proof (read_amt_length _ _ _ _ Hrd) as Hc.
    apply (f_equal length) in Happ. rewrite length_app in Happ.
    simpl in Happ, Hlen, Hc.
    destruct (IH r) as [IH1 IH2]; [lia|].
    split.
    + constructor; [lia|done].
    + intros [|i] c'; simpl.
      * intros [= <-] Hlt. destruct r as [|y r].
        { destruct fuel; simpl in Hlt; lia. }
        simpl in Happ. lia.
      * intros Hi Hlt. apply IH2 with i; [done|lia].
Qed.

Lemma readlines_concat data : concat (readlines data) = data.
Proof.
  induction data as [|x data IH]; [done|]. simpl.
  destruct (is_newline x); simpl; [by rewrite IH|].
  destruct (readlines data) as [|l ls]; simpl in *; by rewrite <- IH.
Qed.

Lemma readlines_shape data i l :
  readlines data !! i = Some l →
  is_line (bool_decide (S i = length (readlines data))) l.
Proof.
  revert i l. induction data as [|x data IH]; intros i l; [done|]. simpl.
  destruct (is_newline x) eqn:Hx.
  - apply Byte.byte_dec_bl in Hx. subst x. destruct i as [|i]; simpl.
    + intros [= <-]. exists []. split; [constructor|by left].
    + intros Hi. destruct (IH i l Hi) as (body & Hbody & Hl).
      exists body. split; [done|]. destruct Hl as [?|(Hlast & ? & ?)]; [by left|].
      right. split; [|done]. apply bool_decide_eq_true in Hlast.
      apply bool_decide_eq_true_2. simpl. by rewrite Hlast.
  - destruct (readlines data) as [|l0 ls] eqn:Hrd.
    + destruct i as [|i]; [|done]. intros [= <-].
      exists [x]. split; [by repeat constructor|]. by right.
    + destruct i as [|i]; simpl.
      * intros [= <-]. destruct (IH 0 l0 eq_refl) as (body & Hbody & Hl).
        exists (x :: body). split; [by constructor|].
        destruct Hl as [->|(Hlast & -> & _)]; [by left|]. by right.
      * intros Hi. apply (IH (S i) l Hi).
Qed.

(** ** Runs of the primitives *)
Lemma emit_run ev E w : emit ev E w = (Ok tt, log_event w ev).
Proof. done. Qed.

Lemma requests_get_run url E w :
  requests_get url E w = (server E url, log_event w (HttpGet url)).
Proof. unfold requests_get, mbind, IO_bind, lift. simpl. by destruct (server E url). Qed.

Lemma open_w_run path mode E w :
  open_w path mode E w =
    if writable E path
    then (Ok tt, {| fs := <[path := []]> (fs w); trace := trace w ++ [Open path mode] |})
    else (Raise IOError, log_event w (Open path mode)).
Proof. unfold open_w, mbind, IO_bind. simpl. by destruct (writable E path). Qed.

Lemma os_path_exists_run path E w :
  os_path_exists path E w = (Ok (present w path), w).
Proof. done. Qed.

Lemma gzip_open_run path E w :
  gzip_open path E w =
    (if present w path then Ok tt else Raise IOError, log_event w (GzipOpen path)).
Proof.
  unfold gzip_open, mbind, IO_bind, present. simpl.
  by destruct (bool_decide (is_Some (fs w !! path))).
Qed.

Lemma with_run {A} (enter exit : IO unit) (body : IO A) E w w1 r w2 w3 :
  enter E w = (Ok tt, w1) → body E w1 = (r, w2) → exit E w2 = (Ok tt, w3) →
  with_ enter exit body E w = (r, w3).
Proof.
  intros He Hb Hx. unfold with_.
  rewrite (bind_ok _ _ _ _ _ _ He).
  unfold mbind at 1, IO_bind at 1, attempt. rewrite Hb.
  rewrite (bind_ok _ _ _ _ _ _ Hx). done.
Qed.

Lemma with_enter_raise {A} (enter exit : IO unit) (body : IO A) E w e w1 :
  enter E w = (Raise e, w1) → with_ enter exit body E w = (Raise e, w1).
Proof. intros He. unfold with_. by rewrite (bind_raise _ _ _ _ _ _ He). Qed.

(** ** The download *)
Section Download.
Variables (url dest : string).

(** The body of the loop of [download_file]. *)
Let body (chunk : list byte) (chunk_count : nat) : IO nat :=
  logging DEBUG ("Downloading chunk: " +:+ pretty chunk_count
                 +:+ " for file: " +:+ dest);;
  match chunk with
  | [] => mret tt
  | _ :: _ => file_write dest chunk
  end;;
  mret (chunk_count + 1).

Lemma download_loop chunks k E w old :
  fs w !! dest = Some old →
  for_in chunks k body E w =
    (Ok (k + length chunks),
     {| fs := <[dest := old ++ concat chunks]> (fs w);
        trace := trace w ++ chunk_events dest k chunks |}).
Proof.
  revert k w old. induction chunks as [|c cs IH]; intros k w old Hold.
  - destruct w as [files evs]. simpl in *.
    by rewrite !app_nil_r, Nat.add_0_r, insert_id.
  - cbn [for_in].
    assert (body c k E w =
      (Ok (k + 1),
       {| fs := <[dest := old ++ c]> (fs w);
          trace := trace w ++
            Log DEBUG ("Downloading chunk: " +:+ pretty k +:+ " for file: " +:+ dest)
            :: match c with [] => [] | _ :: _ => [FileWrite dest c] end |})) as Hb.
    { unfold body, logging, file_write, mbind, IO_bind. simpl.
      destruct c as [|x c]; simpl.
      - by rewrite app_nil_r, insert_id.
      - rewrite Hold. simpl. by rewrite <- app_assoc. }
    rewrite (bind_ok _ _ _ _ _ _ Hb).
    rewrite (IH _ _ (old ++ c)); [|simpl; by rewrite lookup_insert_eq].
    simpl. f_equal; [f_equal; lia|].
    by rewrite insert_insert_eq, <- !app_assoc.
Qed.

(** A download whose request is answered and whose destination can be
    opened: the file ends up holding the bytes that arrived, whatever it
    held before; the run ends well unless the transfer broke off. *)
Lemma download_file_run E w r :
  server E url = Ok r → writable E dest = true →
  let chunks := (iter_content r 1048576).1 in
  download_file url dest E w =
    if interrupted r
    then (Raise ConnectionError,
          {| fs := <[dest := concat chunks]> (fs w);
             trace := trace w ++ [HttpGet url; Open dest "wb"]
                      ++ chunk_events dest 0 chunks ++ [Close dest] |})
    else (Ok dest,
          {| fs := <[dest := concat chunks]> (fs w);
             trace := trace w ++ download_events url dest chunks |}).
Proof.
  intros Hsrv Hwr chunks. unfold download_file.
  erewrite bind_ok; [|rewrite requests_get_run, Hsrv; done].
  pose (w1 := {| fs := <[dest := []]> (fs w);
                 trace := trace w ++ [HttpGet url; Open dest "wb"] |}).
  assert (open_w dest "wb" E (log_event w (HttpGet url)) = (Ok tt, w1)) as Hopen.
  { rewrite open_w_run, Hwr. unfold w1. simpl. by rewrite <- app_assoc. }
  pose (w2 := {| fs := <[dest := concat chunks]> (fs w);
                 trace := trace w ++ [HttpGet url; Open dest "wb"]
                          ++ chunk_events dest 0 chunks |}).
  assert (for_in chunks 0 body E w1 = (Ok (0 + length chunks), w2)) as Hloop.
  { rewrite (download_loop _ _ _ _ []); [|apply lookup_insert_eq].
    unfold w1, w2. simpl. by rewrite insert_insert_eq, <- app_assoc. }
  pose (w3 := {| fs := fs w2; trace := trace w2 ++ [Close dest] |}).
  assert (∀ res, for_stream (iter_content r 1048576) 0 body E w1 = (res, w2) →
            with_ (open_w dest "wb") (file_close dest)
              (for_stream (iter_content r 1048576) 0 body) E (log_event w (HttpGet url))
            = (res, w3)) as Hwith.
  { intros res Hres. eapply with_run; [exact Hopen|exact Hres|done]. }
  assert (for_stream (iter_content r 1048576) 0 body E w1 =
            (if interrupted r then Raise ConnectionError else Ok (0 + length chunks), w2))
    as Hstream.
  { unfold for_stream. erewrite bind_ok; [|exact Hloop].
    unfold iter_content. simpl. by destruct (interrupted r). }
  apply Hwith in Hstream.
  destruct (interrupted r).
  - erewrite bind_raise; [|exact Hstream].
    unfold w3, w2. simpl. by rewrite <- !app_assoc.
  - erewrite bind_ok; [|exact Hstream].
    unfold response_close, mbind, IO_bind, w3, w2, download_events. simpl.
    by rewrite <- !app_assoc.
Qed.

End Download.

(** ** The extraction *)
Lemma extract_loop dst lines E w old :
  fs w !! dst = Some old →
  for_in lines tt (λ line _, file_write dst line) E w =
    (Ok tt,
     {| fs := <[dst := old ++ concat lines]> (fs w);
        trace := trace w ++ (FileWrite dst <$> lines) |}).
Proof.
  revert w old. induction lines as [|l ls IH]; intros w old Hold.
  - destruct w as [files evs]. simpl in *. by rewrite !app_nil_r, insert_id.
  - cbn [for_in].
    assert (file_write dst l E w =
      (Ok tt, {| fs := <[dst := old ++ l]> (fs w); trace := trace w ++ [FileWrite dst l] |}))
      as Hw.
    { unfold file_write, write_fs, mbind, IO_bind. simpl. by rewrite Hold. }
    rewrite (bind_ok _ _ _ _ _ _ Hw).
    rewrite (IH _ (old ++ l)); [|simpl; by rewrite lookup_insert_eq].
    simpl. by rewrite insert_insert_eq, <- !app_assoc.
Qed.

Lemma gzip_lines_run path E w :
  gzip_lines path E w =
    (Ok (readlines (gzip_read E (default [] (fs w !! path))).1,
         if (gzip_read E (default [] (fs w !! path))).2 then None else Some IOError), w).
Proof.
  unfold gzip_lines, ask, read_fs, mbind, IO_bind.
  by destruct (gzip_read E (default [] (fs w !! path))).
Qed.

(** An extraction whose source is there and whose output can be opened:
    the output ends up holding what the decoder delivers, written one line
    at a time; the run ends well unless the decoder gave up.  The decoder
    reads the source as it is once the output has been opened. *)
Lemma extract_run_any src dst E w :
  present w src = true → writable E dst = true →
  let out := gzip_read E (default [] (<[dst := []]> (fs w) !! src)) in
  extract src dst E w =
    (if out.2 then Ok tt else Raise IOError,
     {| fs := <[dst := out.1]> (fs w);
        trace := trace w ++ extract_events src dst (readlines out.1) |}).
Proof.
  intros Hsrc Hwr. unfold extract. cbv zeta.
  destruct (gzip_read E (default [] (<[dst := []]> (fs w) !! src)))
    as [data clean] eqn:Hz. simpl.
  pose (w1 := {| fs := <[dst := []]> (fs w);
                 trace := trace w ++ [GzipOpen src; Open dst "w+"] |}).
  pose (w2 := {| fs := <[dst := data]> (fs w);
                 trace := trace w ++ [GzipOpen src; Open dst "w+"]
                          ++ (FileWrite dst <$> readlines data) |}).
  assert ((zipped ← gzip_lines src;
           for_stream zipped tt (λ line _, file_write dst line)) E w1 =
          (if clean then Ok tt else Raise IOError, w2)) as Hbody.
  { erewrite bind_ok; [|rewrite gzip_lines_run; simpl; by rewrite Hz].
    unfold for_stream. simpl.
    erewrite bind_ok; [|apply (extract_loop _ _ _ _ []); simpl; apply lookup_insert_eq].
    simpl. rewrite insert_insert_eq, readlines_concat.
    unfold w2. rewrite <- app_assoc. by destruct clean. }
  eapply with_run.
  - by rewrite gzip_open_run, Hsrc.
  - eapply with_run.
    + rewrite open_w_run, Hwr. simpl. rewrite <- app_assoc. done.
    + exact Hbody.
    + done.
  - unfold gzip_close, emit, w2, extract_events. simpl.
    by rewrite <- !app_assoc.
Qed.

Lemma extract_run src dst E w z :
  fs w !! src = Some z → src ≠ dst → writable E dst = true →
  extract src dst E w =
    (if (gzip_read E z).2 then Ok tt else Raise IOError,
     {| fs := <[dst := (gzip_read E z).1]> (fs w);
        trace := trace w ++ extract_events src dst (readlines (gzip_read E z).1) |}).
Proof.
  intros Hsrc Hne Hwr. rewrite extract_run_any; [|by apply bool_decide_eq_true_2|done].
  cbv zeta. by rewrite lookup_insert_ne, Hsrc.
Qed.

Lemma extract_missing src dst E w :
  present w src = false → extract src dst E w = (Raise IOError, log_event w (GzipOpen src)).
Proof.
  intros Hsrc. unfold extract. apply with_enter_raise. by rewrite gzip_open_run, Hsrc.
Qed.

Lemma extract_unwritable src dst E w :
  present w src = true → writable E dst = false →
  extract src dst E w =
    (Raise IOError, log_events w [GzipOpen src; Open dst "w+"; GzipClose src]).
Proof.
  intros Hsrc Hwr. unfold extract.
  eapply with_run.
  - by rewrite gzip_open_run, Hsrc.
  - apply with_enter_raise. rewrite open_w_run, Hwr. done.
  - unfold gzip_close, emit, log_event, log_events. simpl. by rewrite <- !app_assoc.
Qed.

Lemma extract_keeps src dst E w p :
  is_Some (fs w !! p) → is_Some (fs (extract src dst E w).2 !! p).
Proof.
  intros Hin. destruct (present w src) eqn:Hsrc.
  - destruct (writable E dst) eqn:Hwr.
    + rewrite extract_run_any by done. simpl.
      destruct (decide (dst = p)) as [->|Hne];
        [rewrite lookup_insert_eq; eauto | by rewrite lookup_insert_ne].
    + by rewrite extract_unwritable.
  - by rewrite extract_missing.
Qed.

(** An extraction that returns has left its output on disk. *)
Lemma extract_returns src dst E w :
  (extract src dst E w).1 = Ok tt → is_Some (fs (extract src dst E w).2 !! dst).
Proof.
  destruct (present w src) eqn:Hsrc.
  - destruct (writable E dst) eqn:Hwr.
    + rewrite extract_run_any by done. simpl. rewrite lookup_insert_eq. eauto.
    + by rewrite extract_unwritable.
  - by rewrite extract_missing.
Qed.

(** ** What a run can call *)
Lemma quiet_counts evs :
  Forall quiet evs → network_calls evs = 0 ∧ decompressions evs = 0.
Proof.
  unfold network_calls, decompressions.
  induction 1 as [|ev evs [Hh Hg] _ [IH1 IH2]]; [done|].
  rewrite !filter_cons, Hh, Hg. simpl. done.
Qed.

Lemma network_calls_app evs evs' :
  network_calls (evs ++ evs') = network_calls evs + network_calls evs'.
Proof. unfold network_calls. by rewrite filter_app, length_app. Qed.

Lemma decompressions_app evs evs' :
  decompressions (evs ++ evs') = decompressions evs + decompressions evs'.
Proof. unfold decompressions. by rewrite filter_app, length_app. Qed.

Lemma new_events_app w w' evs : trace w' = trace w ++ evs → new_events w w' = evs.
Proof. intros H. unfold new_events. by rewrite H, drop_app_length. Qed.

(** [download_file] starts with the request; nothing after it is another
    request or a decompression. *)
Lemma download_file_trace url dest E w :
  ∃ evs, trace (download_file url dest E w).2 = trace w ++ HttpGet url :: evs
         ∧ Forall quiet evs.
Proof.
  unfold download_file.
  destruct (server E url) as [r|e] eqn:Hsrv.
  - erewrite bind_ok; [|rewrite requests_get_run, Hsrv; done].
    match goal with |- context [?k E (log_event w (HttpGet url))] =>
      assert (emits quiet k) as Hk end.
    { unfold open_w, file_close, response_close, logging, file_write.
      emits_steps; by split. }
    destruct (Hk E (log_event w (HttpGet url))) as (evs & Ht & Hq).
    exists evs. rewrite Ht. simpl. by rewrite <- app_assoc.
  - erewrite bind_raise; [|rewrite requests_get_run, Hsrv; done].
    exists []. by split.
Qed.

(** [extract] starts by opening the archive; nothing after it is a request
    or another decompression. *)
Lemma extract_trace src dst E w :
  ∃ evs, trace (extract src dst E w).2 = trace w ++ GzipOpen src :: evs
         ∧ Forall quiet evs.
Proof.
  unfold extract, with_ at 1.
  destruct (present w src) eqn:Hp.
  - erewrite bind_ok; [|rewrite gzip_open_run, Hp; done].
    match goal with |- context [?k E (log_event w (GzipOpen src))] =>
      assert (emits quiet k) as Hk end.
    { unfold open_w, file_close, gzip_close, gzip_lines, file_write.
      emits_steps; by split. }
    destruct (Hk E (log_event w (GzipOpen src))) as (evs & Ht & Hq).
    exists evs. rewrite Ht. simpl. by rewrite <- app_assoc.
  - erewrite bind_raise; [|rewrite gzip_open_run, Hp; done].
    exists []. by split.
Qed.

Lemma network_calls_cons ev evs :
  network_calls (ev :: evs) = (if is_http_get ev then 1 else 0) + network_calls evs.
Proof. unfold network_calls. rewrite filter_cons. by destruct (is_http_get ev). Qed.

Lemma decompressions_cons ev evs :
  decompressions (ev :: evs) = (if is_gzip_open ev then 1 else 0) + decompressions evs.
Proof. unfold decompressions. rewrite filter_cons. by destruct (is_gzip_open ev). Qed.

(** ** Every way a download can end *)
Lemma download_file_offline url dest E w e :
  server E url = Raise e →
  download_file url dest E w = (Raise e, log_event w (HttpGet url)).
Proof.
  intros Hsrv. unfold download_file.
  erewrite bind_raise; [done|]. by rewrite requests_get_run, Hsrv.
Qed.

Lemma download_file_unwritable url dest E w r :
  server E url = Ok r → writable E dest = false →
  download_file url dest E w =
    (Raise IOError, log_events w [HttpGet url; Open dest "wb"]).
Proof.
  intros Hsrv Hwr. unfold download_file.
  erewrite bind_ok; [|rewrite requests_get_run, Hsrv; done].
  erewrite bind_raise; [done|].
  apply with_enter_raise. rewrite open_w_run, Hwr.
  unfold log_event, log_events. simpl. by rewrite <- app_assoc.
Qed.

(** A download touches no file but its destination, and never removes it. *)
Lemma download_file_others url dest E w p :
  p ≠ dest → fs (download_file url dest E w).2 !! p = fs w !! p.
Proof.
  intros Hne. destruct (server E url) as [r|e] eqn:Hsrv.
  - destruct (writable E dest) eqn:Hwr.
    + rewrite (download_file_run _ _ _ _ _ Hsrv Hwr).
      destruct (interrupted r); simpl; by rewrite lookup_insert_ne.
    + by rewrite (download_file_unwritable _ _ _ _ _ Hsrv Hwr).
  - by rewrite (download_file_offline _ _ _ _ _ Hsrv).
Qed.

Lemma download_file_keeps url dest E w :
  is_Some (fs w !! dest) → is_Some (fs (download_file url dest E w).2 !! dest).
Proof.
  intros Hin. destruct (server E url) as [r|e] eqn:Hsrv.
  - destruct (writable E dest) eqn:Hwr.
    + rewrite (download_file_run _ _ _ _ _ Hsrv Hwr).
      destruct (interrupted r); simpl; rewrite lookup_insert_eq; eauto.
    + by rewrite (download_file_unwritable _ _ _ _ _ Hsrv Hwr).
  - by rewrite (download_file_offline _ _ _ _ _ Hsrv).
Qed.

(** A download that returns has left its destination on disk. *)
Lemma download_file_returns url dest E w path :
  (download_file url dest E w).1 = Ok path →
  path = dest ∧ is_Some (fs (download_file url dest E w).2 !! dest).
Proof.
  destruct (server E url) as [r|e] eqn:Hsrv.
  - destruct (writable E dest) eqn:Hwr.
    + rewrite (download_file_run _ _ _ _ _ Hsrv Hwr).
      destruct (interrupted r); simpl; [done|].
      intros [= <-]. rewrite lookup_insert_eq. eauto.
    + by rewrite (download_file_unwritable _ _ _ _ _ Hsrv Hwr).
  - by rewrite (download_file_offline _ _ _ _ _ Hsrv).
Qed.

(** ** The first gate *)
Lemma download_if_necessary_present E w :
  present w embedding_downloaded_path = true → download_if_necessary E w = (Ok tt, w).
Proof.
  intros Hp. unfold download_if_necessary.
  erewrite bind_ok; [|apply os_path_exists_run]. by rewrite Hp.
Qed.

Lemma download_if_necessary_absent E w :
  present w embedding_downloaded_path = false →
  download_if_necessary E w =
    (download_file embedding_download_link embedding_downloaded_path;; mret tt)
      E (log_events w download_notice).
Proof.
  intros Hp. unfold download_if_necessary.
  erewrite bind_ok; [|apply os_path_exists_run]. rewrite Hp. unfold negb.
  unfold logging, print. rewrite !(bind_ok _ _ _ _ _ _ (emit_run _ _ _)).
  unfold log_event, log_events, download_notice. simpl. by rewrite <- !app_assoc.
Qed.

Lemma present_log_events w evs p : present (log_events w evs) p = present w p.
Proof. done. Qed.

Lemma download_if_necessary_trace E w :
  ∃ evs, trace (download_if_necessary E w).2 = trace w ++ evs
         ∧ network_calls evs = (if present w embedding_downloaded_path then 0 else 1)
         ∧ decompressions evs = 0.
Proof.
  destruct (present w embedding_downloaded_path) eqn:Hp.
  - rewrite download_if_necessary_present by done. exists []. by rewrite app_nil_r.
  - rewrite download_if_necessary_absent by done.
    destruct (download_file_trace embedding_download_link embedding_downloaded_path
                E (log_events w download_notice)) as (evs & Ht & Hq).
    exists (download_notice ++ HttpGet embedding_download_link :: evs).
    apply quiet_counts in Hq as [Hn Hd]. split; [|split].
    + unfold mbind, IO_bind.
      destruct (download_file _ _ E _) as [[path|e] w1]; simpl in *;
        by rewrite Ht, <- app_assoc.
    + by rewrite network_calls_app, network_calls_cons, Hn.
    + by rewrite decompressions_app, decompressions_cons, Hd.
Qed.

Lemma download_if_necessary_others E w p :
  p ≠ embedding_downloaded_path → fs (download_if_necessary E w).2 !! p = fs w !! p.
Proof.
  intros Hne. destruct (present w embedding_downloaded_path) eqn:Hp.
  - by rewrite download_if_necessary_present.
  - rewrite download_if_necessary_absent by done.
    pose proof (download_file_others embedding_download_link embedding_downloaded_path
                  E (log_events w download_notice) p Hne) as Hfs.
    unfold mbind, IO_bind. by destruct (download_file _ _ E _) as [[path|e] w1].
Qed.

Lemma download_if_necessary_keeps E w p :
  is_Some (fs w !! p) → is_Some (fs (download_if_necessary E w).2 !! p).
Proof.
  intros Hin. destruct (decide (p = embedding_downloaded_path)) as [->|Hne].
  - rewrite download_if_necessary_present; [done|]. by apply bool_decide_eq_true_2.
  - by rewrite download_if_necessary_others.
Qed.

(** Past the first gate the archive is on disk. *)
Lemma download_if_necessary_returns E w :
  (download_if_necessary E w).1 = Ok tt →
  present (download_if_necessary E w).2 embedding_downloaded_path = true.
Proof.
  destruct (present w embedding_downloaded_path) eqn:Hp.
  - by rewrite download_if_necessary_present.
  - rewrite download_if_necessary_absent by done.
    pose proof (download_file_returns embedding_download_link embedding_downloaded_path
                  E (log_events w download_notice)) as Hret.
    unfold mbind, IO_bind.
    destruct (download_file _ _ E _) as [[path|e] w1]; simpl in *; [|done].
    intros _. destruct (Hret path eq_refl) as [_ Hin]. by apply bool_decide_eq_true_2.
Qed.

(** ** The second gate *)
Lemma extract_if_necessary_present E w :
  present w (conf E "embedding_path") = true → extract_if_necessary E w = (Ok tt, w).
Proof.
  intros Hp. unfold extract_if_necessary, get_conf, ask, mbind, IO_bind. simpl.
  fold (present w (conf E "embedding_path")). by rewrite Hp.
Qed.

Lemma extract_if_necessary_absent E w :
  present w (conf E "embedding_path") = false →
  extract_if_necessary E w =
    extract embedding_downloaded_path (conf E "embedding_path")
      E (log_events w (extract_notice (conf E "embedding_path"))).
Proof.
  intros Hp. unfold extract_if_necessary, get_conf, ask, logging, mbind, IO_bind. simpl.
  fold (present w (conf E "embedding_path")). rewrite Hp. simpl.
  unfold log_events, extract_notice. simpl. by rewrite <- !app_assoc.
Qed.

Lemma extract_if_necessary_trace E w :
  ∃ evs, trace (extract_if_necessary E w).2 = trace w ++ evs
         ∧ network_calls evs = 0
         ∧ decompressions evs = (if present w (conf E "embedding_path") then 0 else 1).
Proof.
  destruct (present w (conf E "embedding_path")) eqn:Hp.
  - rewrite extract_if_necessary_present by done. exists []. by rewrite app_nil_r.
  - rewrite extract_if_necessary_absent by done.
    destruct (extract_trace embedding_downloaded_path (conf E "embedding_path")
                E (log_events w (extract_notice (conf E "embedding_path"))))
      as (evs & Ht & Hq).
    exists (extract_notice (conf E "embedding_path")
            ++ GzipOpen embedding_downloaded_path :: evs).
    apply quiet_counts in Hq as [Hn Hd]. split; [|split].
    + rewrite Ht. simpl. by rewrite <- app_assoc.
    + by rewrite network_calls_app, network_calls_cons, Hn.
    + by rewrite decompressions_app, decompressions_cons, Hd.
Qed.

Lemma extract_if_necessary_keeps E w p :
  is_Some (fs w !! p) → is_Some (fs (extract_if_necessary E w).2 !! p).
Proof.
  intros Hin. destruct (present w (conf E "embedding_path")) eqn:Hp.
  - by rewrite extract_if_necessary_present.
  - rewrite extract_if_necessary_absent by done. by apply extract_keeps.
Qed.

(** Past the second gate the vectors are on disk. *)
Lemma extract_if_necessary_returns E w :
  (extract_if_necessary E w).1 = Ok tt →
  present (extract_if_necessary E w).2 (conf E "embedding_path") = true.
Proof.
  destruct (present w (conf E "embedding_path")) eqn:Hp.
  - by rewrite extract_if_necessary_present.
  - rewrite extract_if_necessary_absent by done.
    intros Hok. apply bool_decide_eq_true_2. by apply extract_returns.
Qed.

(** ** The two gates in a row *)
Lemma download_embedding_run E w :
  download_embedding E w =
    match download_if_necessary E (log_event w start_notice) with
    | (Raise e, w1) => (Raise e, w1)
    | (Ok _, w1) =>
        match extract_if_necessary E w1 with
        | (Raise e, w2) => (Raise e, w2)
        | (Ok _, w2) => (Ok tt, log_event w2 (done_notice (conf E "embedding_path")))
        end
    end.
Proof.
  unfold download_embedding, logging.
  rewrite (bind_ok _ _ _ _ _ _ (emit_run _ _ _)). fold start_notice.
  unfold mbind at 1, IO_bind at 1.
  destruct (download_if_necessary E _) as [[[]|e] w1]; [|done].
  unfold mbind at 1, IO_bind at 1.
  destruct (extract_if_necessary E w1) as [[[]|e] w2]; [|done].
  done.
Qed.

Lemma download_embedding_counts E w :
  let gate := download_if_necessary E (log_event w start_notice) in
  ∃ evs, trace (download_embedding E w).2 = trace w ++ evs
         ∧ network_calls evs = (if present w embedding_downloaded_path then 0 else 1)
         ∧ decompressions evs =
             match gate.1 with
             | Ok _ => if present gate.2 (conf E "embedding_path") then 0 else 1
             | Raise _ => 0
             end.
Proof.
  cbv zeta. rewrite download_embedding_run.
  destruct (download_if_necessary_trace E (log_event w start_notice))
    as (evs1 & Ht1 & Hn1 & Hd1).
  change (present (log_event w start_notice) embedding_downloaded_path)
    with (present w embedding_downloaded_path) in Hn1.
  destruct (download_if_necessary E _) as [[[]|e] w1]; simpl in *.
  - destruct (extract_if_necessary_trace E w1) as (evs2 & Ht2 & Hn2 & Hd2).
    destruct (extract_if_necessary E w1) as [[[]|e] w2]; simpl in *.
    + exists (start_notice :: evs1 ++ evs2 ++ [done_notice (conf E "embedding_path")]).
      split; [|split].
      * rewrite Ht2, Ht1. simpl. rewrite <- ?app_assoc. simpl. by rewrite <- ?app_assoc.
      * rewrite network_calls_cons, !network_calls_app, Hn1, Hn2.
        unfold network_calls, start_notice, done_notice. simpl. lia.
      * rewrite decompressions_cons, !decompressions_app, Hd1, Hd2.
        unfold decompressions, start_notice, done_notice. simpl. lia.
    + exists (start_notice :: evs1 ++ evs2). split; [|split].
      * rewrite Ht2, Ht1. simpl. rewrite <- ?app_assoc. simpl. by rewrite <- ?app_assoc.
      * rewrite network_calls_cons, !network_calls_app, Hn1, Hn2.
        unfold network_calls, start_notice, done_notice. simpl. lia.
      * rewrite decompressions_cons, !decompressions_app, Hd1, Hd2.
        unfold decompressions, start_notice, done_notice. simpl. lia.
  - exists (start_notice :: evs1). split; [|split].
    + rewrite Ht1. simpl. by rewrite <- ?app_assoc.
    + rewrite network_calls_cons, Hn1. unfold start_notice. simpl. lia.
    + rewrite decompressions_cons, Hd1. unfold start_notice. simpl. lia.
Qed.

(** With the archive on disk, or a server that delivers it, the first gate
    is passed. *)
Lemma download_if_necessary_passes E w :
  present w embedding_downloaded_path = true
  ∨ fetchable E embedding_download_link embedding_downloaded_path →
  (download_if_necessary E w).1 = Ok tt.
Proof.
  destruct (present w embedding_downloaded_path) eqn:Hp.
  - intros _. by rewrite download_if_necessary_present.
  - intros [|(r & Hsrv & Hint & Hwr)]; [done|].
    rewrite download_if_necessary_absent by done.
    unfold mbind, IO_bind.
    rewrite (download_file_run _ _ _ _ _ Hsrv Hwr), Hint. done.
Qed.

Lemma writes_to_write path data evs :
  writes_to path (FileWrite path data :: evs) = data :: writes_to path evs.
Proof. unfold writes_to. cbn [omap list_omap]. by rewrite String.eqb_refl. Qed.

Lemma writes_to_log path level msg evs :
  writes_to path (Log level msg :: evs) = writes_to path evs.
Proof. done. Qed.

Lemma writes_to_chunk_events dest k chunks :
  Forall (λ c, 0 < length c) chunks →
  writes_to dest (chunk_events dest k chunks) = chunks.
Proof.
  intros Hne. revert k. induction Hne as [|c cs Hc _ IH]; intros k; [done|].
  destruct c as [|x c]; [simpl in Hc; lia|].
  cbn [chunk_events app]. by rewrite writes_to_log, writes_to_write, IH.
Qed.

Lemma writes_to_lines dst lines : writes_to dst (FileWrite dst <$> lines) = lines.
Proof.
  induction lines as [|l ls IH]; [done|].
  cbn [fmap list_fmap]. rewrite writes_to_write. f_equal. exact IH.
Qed.

(** ** The loader *)
Lemma add_word_dom n acc r word :
  (add_word n acc r).1 !! word = None ↔ acc.1 !! word = None ∧ word ≠ r.1.
Proof.
  unfold add_word. destruct (acc.1 !! r.1) as [v|] eqn:Hr; simpl.
  - split; [|by intros [? _]]. intros Hw. split; [done|]. intros ->. congruence.
  - rewrite lookup_insert_None. split; intros [? ?]; split; congruence.
Qed.

Lemma add_word_new n acc r :
  acc.1 !! r.1 = None →
  add_word n acc r =
    (<[r.1 := {| index := size acc.1; count := n - size acc.1 |}]> acc.1, acc.2 ++ [r.2]).
Proof. intros H. unfold add_word. by rewrite H. Qed.

Lemma load_dom n recs acc word :
  (foldl (add_word n) acc recs).1 !! word = None
  ↔ acc.1 !! word = None ∧ word ∉ recs.*1.
Proof.
  revert acc. induction recs as [|r recs IH]; intros acc; simpl.
  - split; [intros ?; split; [done|apply not_elem_of_nil] | by intros [? _]].
  - rewrite IH, add_word_dom, not_elem_of_cons. tauto.
Qed.

(** On records with distinct words: rows in file order, each word at the
    row of its position. *)
Lemma load_nodup n recs :
  NoDup recs.*1 →
  let acc := foldl (add_word n) (∅, []) recs in
  acc.2 = recs.*2 ∧ size acc.1 = length recs
  ∧ ∀ i r, recs !! i = Some r → acc.1 !! r.1 = Some {| index := i; count := n - i |}.
Proof.
  cbv zeta. induction recs as [|r recs IH] using rev_ind; [done|].
  rewrite fmap_app, NoDup_app. intros (Hnd & Hfresh & _).
  destruct (IH Hnd) as (Hrows & Hsize & Hidx). clear IH.
  rewrite foldl_app. simpl.
  assert ((foldl (add_word n) (∅, []) recs).1 !! r.1 = None) as Hnew.
  { apply load_dom. split; [done|]. intros Hin. apply (Hfresh _ Hin). simpl. left. }
  rewrite (add_word_new _ _ _ Hnew). simpl. split; [|split].
  - by rewrite Hrows, fmap_app.
  - rewrite map_size_insert_None by done. rewrite length_app. simpl. lia.
  - intros i r' Hi. destruct (decide (i = length recs)) as [->|Hne].
    + rewrite list_lookup_middle in Hi by done. injection Hi as <-.
      by rewrite lookup_insert_eq, Hsize.
    + assert (i < length recs) as Hlt.
      { apply lookup_lt_Some in Hi. rewrite length_app in Hi. simpl in Hi. lia. }
      rewrite lookup_app_l in Hi by done.
      rewrite lookup_insert_ne; [by apply Hidx|].
      intros Heq. apply (Hfresh r'.1); [|rewrite <- Heq; simpl; left].
      apply list_elem_of_fmap. exists r'. split; [done|].
      by eapply list_elem_of_lookup_2.
Qed.

Lemma well_sized_rows f : well_sized f = true →
  Forall (λ row, length row = vector_size f) (records f).*2.
Proof.
  unfold well_sized. rewrite forallb_forall, Forall_fmap, Forall_forall.
  intros H r Hr. apply Nat.eqb_eq, H. by apply list_elem_of_In.
Qed.

(** ** The mapping *)
Lemma getitem_hit limit (d : gmap string nat) key v :
  d !! key = Some v → getitem limit d key = (Ok v, d).
Proof. intros H. destruct limit; simpl; by rewrite H. Qed.

Lemma getitem_default limit (d : gmap string nat) key u :
  d !! key = None → d !! "UNK" = Some u →
  getitem (S limit) d key = (Ok u, <[key := u]> d).
Proof. intros Hk Hu. simpl. by rewrite Hk, (getitem_hit _ _ _ _ Hu). Qed.

(** Without "UNK" the factory calls itself until the frames run out. *)
Lemma getitem_raises limit (d : gmap string nat) key :
  d !! key = None → d !! "UNK" = None → getitem limit d key = (Raise RuntimeError, d).
Proof.
  intros Hk Hu. revert key Hk. induction limit as [|limit IH]; intros key Hk; simpl.
  - by rewrite Hk.
  - by rewrite Hk, (IH "UNK" Hu).
Qed.

Lemma getitem_cases limit (d : gmap string nat) key :
  (getitem limit d key).2 = d
  ∨ d !! key = None ∧ ∃ u, d !! "UNK" = Some u ∧ (getitem limit d key).2 = <[key := u]> d.
Proof.
  destruct (d !! key) as [v|] eqn:Hk; [left; by rewrite (getitem_hit _ _ _ _ Hk)|].
  destruct limit as [|limit]; [left; simpl; by rewrite Hk|].
  destruct (d !! "UNK") as [u|] eqn:Hu.
  - right. split; [done|]. exists u. by rewrite (getitem_default _ _ _ _ Hk Hu).
  - left. by rewrite getitem_raises.
Qed.

Lemma update_fresh (d : gmap string nat) : update ∅ d = d.
Proof. unfold update. apply (right_id_L ∅ (∪)). Qed.

Lemma py_min_ok xs : xs ≠ [] → ∃ lo, py_min xs = Ok lo.
Proof. destruct xs; [done|]. intros _. by eexists. Qed.

Lemma py_max_ok xs : xs ≠ [] → ∃ hi, py_max xs = Ok hi.
Proof. destruct xs; [done|]. intros _. by eexists. Qed.

Lemma values_nonempty (d : gmap string nat) key : is_Some (d !! key) → values d ≠ [].
Proof.
  intros [v Hv] Hnil. unfold values in Hnil.
  apply fmap_nil_inv in Hnil. apply map_to_list_empty_iff in Hnil.
  rewrite Hnil in Hv. by rewrite lookup_empty in Hv.
Qed.

Lemma get_conf_run key E w : get_conf key E w = (Ok (conf E key), w).
Proof. done. Qed.

(** A file that is there, decodes, is well sized and holds a record is
    loaded: the matrix and the mapping are those of the loader, and no
    file changes. *)
Lemma create_embedding_matrix_run E w data f :
  fs w !! conf E "embedding_path" = Some data →
  word2vec_decode E data = Some f → well_sized f = true → records f ≠ [] →
  ∃ evs, create_embedding_matrix E w =
           (Ok (syn0 (load_records f), index <$> vocab (load_records f)),
            log_events w evs).
Proof.
  intros Hfile Hdec Hsz Hrec.
  assert (values (index <$> vocab (load_records f)) ≠ []) as Hvals.
  { destruct (records f) as [|r recs] eqn:Hrs; [done|].
    apply (values_nonempty _ r.1). rewrite lookup_fmap, fmap_is_Some.
    apply not_eq_None_Some. unfold load_records. simpl. rewrite Hrs, load_dom.
    intros [_ Hnot]. apply Hnot. simpl. left. }
  destruct (py_min_ok _ Hvals) as [lo Hlo]. destruct (py_max_ok _ Hvals) as [hi Hhi].
  unfold create_embedding_matrix, logging.
  assert (∀ v, fs v = fs w →
            load_word2vec_format (conf E "embedding_path") E v =
              (Ok (load_records f),
               log_events v [Open (conf E "embedding_path") "rb";
                             Close (conf E "embedding_path")])) as Hload.
  { intros v Hv. unfold load_word2vec_format, read_fs.
    unfold mbind at 1, IO_bind at 1. rewrite Hv, Hfile.
    eapply with_run; [apply emit_run| |].
    - unfold ask, mbind, IO_bind. rewrite Hdec, Hsz. done.
    - unfold file_close, emit, log_event, log_events. simpl. by rewrite <- app_assoc. }
  rewrite (bind_ok _ _ _ _ _ _ (emit_run _ _ _)).
  rewrite (bind_ok _ _ _ _ _ _ (get_conf_run _ _ _)).
  rewrite (bind_ok _ _ _ _ _ _ (Hload (log_event w _) eq_refl)). cbv zeta.
  rewrite update_fresh.
  rewrite (bind_ok _ _ _ _ _ _ (emit_run _ _ _)).
  erewrite bind_ok; [|unfold lift; by rewrite Hlo].
  erewrite bind_ok; [|unfold lift; by rewrite Hhi].
  rewrite (bind_ok _ _ _ _ _ _ (emit_run _ _ _)).
  eexists. unfold mret, IO_ret, log_event, log_events. simpl.
  rewrite <- !app_assoc. simpl. reflexivity.
Qed.

(** ** Counting and framing *)
Lemma writes_to_app path evs evs' :
  writes_to path (evs ++ evs') = writes_to path evs ++ writes_to path evs'.
Proof. unfold writes_to. apply omap_app. Qed.

Lemma new_events_mk w files evs :
  new_events w {| fs := files; trace := trace w ++ evs |} = evs.
Proof. by apply new_events_app. Qed.

Lemma closed_connections_app evs evs' :
  closed_connections (evs ++ evs') = closed_connections evs + closed_connections evs'.
Proof. unfold closed_connections. by rewrite filter_app, length_app. Qed.

Lemma chunk_events_open dest k chunks : closed_connections (chunk_events dest k chunks) = 0.
Proof.
  revert k. induction chunks as [|c cs IH]; intros k; [done|].
  cbn [chunk_events]. change (?x :: ?l ++ ?l') with ([x] ++ l ++ l').
  rewrite !closed_connections_app, IH. by destruct c.
Qed.

Lemma chunks_logged_app evs evs' :
  chunks_logged (evs ++ evs') = chunks_logged evs + chunks_logged evs'.
Proof. unfold chunks_logged. by rewrite filter_app, length_app. Qed.

Lemma chunk_events_logged dest k chunks :
  chunks_logged (chunk_events dest k chunks) = length chunks.
Proof.
  revert k. induction chunks as [|c cs IH]; intros k; [done|].
  cbn [chunk_events]. change (?x :: ?l ++ ?l') with ([x] ++ l ++ l').
  rewrite !chunks_logged_app, IH. by destruct c.
Qed.

Lemma chunk_events_quiet dest k chunks : Forall quiet (chunk_events dest k chunks).
Proof.
  revert k. induction chunks as [|c cs IH]; intros k; [constructor|].
  cbn [chunk_events]. constructor; [done|]. apply Forall_app. split; [|apply IH].
  destruct c; by repeat constructor.
Qed.

Lemma extract_others src dst E w q :
  q ≠ dst → fs (extract src dst E w).2 !! q = fs w !! q.
Proof.
  intros Hne. destruct (present w src) eqn:Hsrc.
  - destruct (writable E dst) eqn:Hwr.
    + rewrite extract_run_any by done. simpl. by rewrite lookup_insert_ne.
    + by rewrite extract_unwritable.
  - by rewrite extract_missing.
Qed.

(** The number of chunks is the length over the chunk size, rounded up. *)
Lemma chunks_of_count fuel n data :
  (0 < n)%N → length data ≤ fuel →
  N.of_nat (length (chunks_of fuel n data)) = ((N.of_nat (length data) + n - 1) / n)%N.
Proof.
  intros Hn. revert data. induction fuel as [|fuel IH]; intros data Hlen.
  - destruct data; [|simpl in Hlen; lia]. simpl.
    symmetry. apply N.div_small. lia.
  - destruct data as [|x data].
    { simpl. symmetry. apply N.div_small. lia. }
    cbn [chunks_of]. assert (0 < length (x :: data)) as Hpos by (simpl; lia).
    remember (x :: data) as xs eqn:Hxs. clear Hxs x data.
    destruct (read_amt n xs) as [c r] eqn:Hrd.
    pose proof (read_amt_app _ _ _ _ Hrd) as Happ.
    pose proof (read_amt_length _ _ _ _ Hrd) as Hc.
    apply (f_equal length) in Happ. rewrite length_app in Happ.
    cbn [length]. rewrite Nat2N.inj_succ, IH by lia.
    destruct (N.le_gt_cases (N.of_nat (length xs)) n) as [Hle|Hgt].
    + assert (length r = 0) as -> by lia.
      rewrite (N.div_small (N.of_nat 0 + n - 1) n) by lia.
      apply (N.div_unique _ _ 1 (N.of_nat (length xs) - 1)); lia.
    + assert (N.of_nat (length c) = n) as Hfull by lia.
      replace (N.of_nat (length xs) + n - 1)%N
        with ((N.of_nat (length r) + n - 1) + 1 * n)%N by lia.
      rewrite N.div_add by lia. lia.
Qed.

(** ** Whole runs *)
Lemma download_embedding_settled E w :
  present w embedding_downloaded_path = true →
  present w (conf E "embedding_path") = true →
  download_embedding E w =
    (Ok tt, log_events w [start_notice; done_notice (conf E "embedding_path")]).
Proof.
  intros Ha Hp. rewrite download_embedding_run.
  rewrite download_if_necessary_present by done.
  rewrite extract_if_necessary_present by done.
  unfold log_event, log_events. simpl. by rewrite <- app_assoc.
Qed.

Lemma download_embedding_from_scratch E w r :
  present w embedding_downloaded_path = false →
  present w (conf E "embedding_path") = false →
  conf E "embedding_path" ≠ embedding_downloaded_path →
  server E embedding_download_link = Ok r → interrupted r = false →
  writable E embedding_downloaded_path = true →
  writable E (conf E "embedding_path") = true →
  let p := conf E "embedding_path" in
  let out := gzip_read E (content r) in
  download_embedding E w =
    (if out.2 then Ok tt else Raise IOError,
     {| fs := <[p := out.1]> (<[embedding_downloaded_path := content r]> (fs w));
        trace := trace w ++ [start_notice] ++ download_notice
                 ++ download_events embedding_download_link embedding_downloaded_path
                      (iter_content r 1048576).1
                 ++ extract_notice p
                 ++ extract_events embedding_downloaded_path p (readlines out.1)
                 ++ (if out.2 then [done_notice p] else []) |}).
Proof.
  intros Ha Hp Hne Hsrv Hint Hwa Hwp. cbv zeta.
  rewrite download_embedding_run.
  rewrite download_if_necessary_absent by done.
  unfold mbind at 1, IO_bind at 1.
  rewrite (download_file_run _ _ _ _ _ Hsrv Hwa), Hint. cbv zeta.
  unfold iter_content at 1. cbn [fst].
  rewrite chunks_of_concat by (done || lia).
  unfold mret, IO_ret.
  rewrite extract_if_necessary_absent; cycle 1.
  { unfold present in *. cbn [fs]. by rewrite lookup_insert_ne. }
  erewrite extract_run; [|cbn [fs log_events]; apply lookup_insert_eq|done|done].
  destruct (gzip_read E (content r)) as [data clean]. cbn [fst snd].
  unfold log_events, log_event. cbn [fs trace].
  destruct clean; cbn [fs trace]; f_equal; f_equal;
    rewrite <- ?app_assoc; simpl; rewrite <- ?app_assoc; simpl;
    rewrite ?app_nil_r; reflexivity.
Qed.

Lemma download_if_necessary_frame E w q :
  fs (download_if_necessary E w).2 !! q = fs w !! q
  ∨ fs w !! q = None ∧ q = embedding_downloaded_path.
Proof.
  destruct (decide (q = embedding_downloaded_path)) as [->|Hne];
    [|left; by apply download_if_necessary_others].
  destruct (present w embedding_downloaded_path) eqn:Hp.
  - left. by rewrite download_if_necessary_present.
  - right. split; [|done]. apply bool_decide_eq_false in Hp.
    by apply eq_None_not_Some.
Qed.

Lemma extract_if_necessary_frame E w q :
  fs (extract_if_necessary E w).2 !! q = fs w !! q
  ∨ fs w !! q = None ∧ q = conf E "embedding_path".
Proof.
  destruct (present w (conf E "embedding_path")) eqn:Hp.
  - left. by rewrite extract_if_necessary_present.
  - rewrite extract_if_necessary_absent by done.
    destruct (decide (q = conf E "embedding_path")) as [->|Hne].
    + right. split; [|done]. apply bool_decide_eq_false in Hp.
      by apply eq_None_not_Some.
    + left. by rewrite extract_others.
Qed.

Lemma decompressions_writes dst lines : decompressions (FileWrite dst <$> lines) = 0.
Proof. unfold decompressions. induction lines as [|l ls IH]; [done|]. exact IH. Qed.

Lemma writes_to_other p dest data evs :
  p ≠ dest → writes_to p (FileWrite dest data :: evs) = writes_to p evs.
Proof.
  intros Hne. unfold writes_to. cbn [omap list_omap].
  assert (String.eqb dest p = false) as -> by (apply String.eqb_neq; congruence). done.
Qed.

Lemma writes_to_chunk_events_other p dest k chunks :
  p ≠ dest → writes_to p (chunk_events dest k chunks) = [].
Proof.
  intros Hne. revert k. induction chunks as [|c cs IH]; intros k; [done|].
  cbn [chunk_events]. rewrite writes_to_log. destruct c as [|x c]; cbn [app].
  - apply IH.
  - rewrite writes_to_other by done. apply IH.
Qed.

(** What the events of an extraction and of a download amount to. *)
Lemma extract_events_observed src dst lines :
  decompressions (extract_events src dst lines) = 1
  ∧ writes_to dst (extract_events src dst lines) = lines.
Proof.
  unfold extract_events. split.
  - by rewrite !decompressions_app, decompressions_writes.
  - rewrite !writes_to_app, writes_to_lines. apply app_nil_r.
Qed.

Lemma download_events_observed url dest chunks p :
  p ≠ dest →
  decompressions (download_events url dest chunks) = 0
  ∧ writes_to p (download_events url dest chunks) = [].
Proof.
  intros Hne. unfold download_events. split.
  - rewrite !decompressions_app.
    by destruct (quiet_counts _ (chunk_events_quiet dest 0 chunks)) as [_ ->].
  - by rewrite !writes_to_app, writes_to_chunk_events_other.
Qed.

(** A run that finds the archive on disk and the output absent. *)
Lemma download_embedding_extracts E w z :
  fs w !! embedding_downloaded_path = Some z →
  present w (conf E "embedding_path") = false →
  conf E "embedding_path" ≠ embedding_downloaded_path →
  writable E (conf E "embedding_path") = true →
  let p := conf E "embedding_path" in
  let out := gzip_read E z in
  download_embedding E w =
    (if out.2 then Ok tt else Raise IOError,
     {| fs := <[p := out.1]> (fs w);
        trace := trace w ++ [start_notice] ++ extract_notice p
                 ++ extract_events embedding_downloaded_path p (readlines out.1)
                 ++ (if out.2 then [done_notice p] else []) |}).
Proof.
  intros Hz Hp Hne Hwp. cbv zeta.
  assert (present w embedding_downloaded_path = true) as Ha.
  { apply bool_decide_eq_true_2. rewrite Hz. eauto. }
  rewrite download_embedding_run.
  rewrite download_if_necessary_present by done.
  rewrite extract_if_necessary_absent by done.
  erewrite extract_run; [|exact Hz|done|done].
  destruct (gzip_read E z) as [data clean]. cbn [fst snd].
  unfold log_events, log_event. cbn [fs trace].
  destruct clean; f_equal; f_equal;
    rewrite <- ?app_assoc; simpl; rewrite <- ?app_assoc; simpl;
    rewrite ?app_nil_r; reflexivity.
Qed.

(** A run never changes what a file on disk holds. *)
Lemma download_embedding_keeps_content E w q :
  is_Some (fs w !! q) → fs (download_embedding E w).2 !! q = fs w !! q.
Proof.
  intros [x Hx]. rewrite download_embedding_run.
  pose proof (download_if_necessary_frame E (log_event w start_notice) q) as H1.
  destruct (download_if_necessary E _) as [[[]|e] w1]; cbn [fst snd fs log_event] in *;
    [|destruct H1 as [H1|[H1 _]]; congruence].
  pose proof (extract_if_necessary_frame E w1 q) as H2.
  destruct (extract_if_necessary E w1) as [[[]|e] w2]; cbn [fst snd fs log_event] in *;
    destruct H1 as [H1|[H1 _]]; destruct H2 as [H2|[H2 _]]; congruence.
Qed.

(** With the archive absent and no way to fetch it, the first gate raises. *)
Lemma download_if_necessary_fails E w :
  present w embedding_downloaded_path = false →
  ¬ fetchable E embedding_download_link embedding_downloaded_path →
  ∃ e, (download_if_necessary E w).1 = Raise e.
Proof.
  intros Ha Hno. rewrite download_if_necessary_absent by done.
  unfold mbind, IO_bind.
  destruct (server E embedding_download_link) as [r|e] eqn:Hsrv.
  - destruct (writable E embedding_downloaded_path) eqn:Hwr.
    + rewrite (download_file_run _ _ _ _ _ Hsrv Hwr).
      destruct (interrupted r) eqn:Hint; [by eexists|].
      destruct Hno. by exists r.
    + rewrite (download_file_unwritable _ _ _ _ _ Hsrv Hwr). by eexists.
  - rewrite (download_file_offline _ _ _ _ _ Hsrv). by eexists.
Qed.

(** * The claims *)

(** C1.  For a word-vector file that is on disk, decodes, has every vector
    of the announced size and distinct words, "UNK" among them,
    [create_embedding_matrix] returns a matrix of shape (number of words,
    dimensionality) and a mapping in which every word resolves to the row
    that holds its vector, its position in the file, and every key that is
    not a word of the file resolves to the row of "UNK". *)
Theorem create_embedding_matrix_resolves E w data f :
  fs w !! conf E "embedding_path" = Some data →
  word2vec_decode E data = Some f → well_sized f = true →
  NoDup (records f).*1 → "UNK" ∈ (records f).*1 →
  ∃ m d w',
    create_embedding_matrix E w = (Ok (m, d), w') ∧ fs w' = fs w
    ∧ shape m = (length (records f), vector_size f)
    ∧ length (rows m) = length (records f)
    ∧ Forall (λ row, length row = vector_size f) (rows m)
    ∧ size d = length (records f)
    ∧ (∀ i word vec, records f !! i = Some (word, vec) →
         rows m !! i = Some vec ∧ ∀ limit, getitem limit d word = (Ok i, d))
    ∧ (∀ key, key ∉ (records f).*1 →
         ∃ u, (∀ limit, getitem limit d "UNK" = (Ok u, d))
              ∧ ∀ limit, 0 < limit → getitem limit d key = (Ok u, <[key := u]> d)).
Proof.
  intros Hfile Hdec Hsz Hnd Hunk.
  assert (records f ≠ []) as Hrec.
  { intros Hnil. rewrite Hnil in Hunk. by apply elem_of_nil in Hunk. }
  destruct (create_embedding_matrix_run E w data f Hfile Hdec Hsz Hrec) as [evs Hrun].
  destruct (load_nodup (length (records f)) (records f) Hnd) as (Hrows & Hsize & Hidx).
  exists (syn0 (load_records f)), (index <$> vocab (load_records f)), (log_events w evs).
  unfold load_records in *. simpl in *.
  split; [exact Hrun|]. split; [done|]. split; [by rewrite Hsize|].
  split; [by rewrite Hrows, length_fmap|].
  split; [rewrite Hrows; by apply well_sized_rows|].
  split; [by rewrite map_size_fmap|].
  assert (∀ i word vec, records f !! i = Some (word, vec) →
            (index <$> (foldl (add_word (length (records f))) (∅, []) (records f)).1)
              !! word = Some i) as Hd.
  { intros i word vec Hi. pose proof (Hidx i (word, vec) Hi) as Hw. simpl in Hw.
    by rewrite lookup_fmap, Hw. }
  split.
  - intros i word vec Hi. split.
    + rewrite Hrows, list_lookup_fmap, Hi. done.
    + intros limit. apply getitem_hit. by eapply Hd.
  - intros key Hkey.
    apply list_elem_of_fmap in Hunk as ([word vec] & Hw & Hin). simpl in Hw. subst word.
    apply list_elem_of_lookup in Hin as [u Hu].
    exists u. split.
    + intros limit. apply getitem_hit. by eapply Hd.
    + intros [|limit] Hlimit; [lia|]. apply getitem_default; [|by eapply Hd].
      rewrite lookup_fmap, (proj2 (load_dom _ _ (∅, []) key)); [done|].
      split; [apply lookup_empty|done].
Qed.

Lemma create_embedding_matrix_resolves_witness :
  ∃ m d w',
    create_embedding_matrix Fixtures.env0 Fixtures.vectors_present = (Ok (m, d), w')
    ∧ shape m = (3, 4)
    ∧ getitem 1000 d "dog" = (Ok 2, d)
    ∧ (getitem 1000 d "zebra").1 = (getitem 1000 d "UNK").1.
Proof.
  assert (NoDup (records Fixtures.three_by_four).*1) as Hnd.
  { refine (bool_decide_unpack _ _). vm_compute. exact I. }
  assert ("UNK" ∈ (records Fixtures.three_by_four).*1) as Hunk.
  { refine (bool_decide_unpack _ _). vm_compute. exact I. }
  destruct (create_embedding_matrix_resolves Fixtures.env0 Fixtures.vectors_present
              (Fixtures.b "3 4") Fixtures.three_by_four eq_refl eq_refl eq_refl Hnd Hunk)
    as (m & d & w' & Hrun & _ & Hshape & _ & _ & _ & Hword & Hkey).
  exists m, d, w'. split; [exact Hrun|]. split; [exact Hshape|]. split.
  - apply (proj2 (Hword 2 "dog" [0; 1065353216; 0; 1073741824]%Z eq_refl)).
  - destruct (Hkey "zebra") as (u & Hu & Hz).
    + intros Hin. apply (bool_decide_pack _) in Hin. vm_compute in Hin. exact Hin.
    + rewrite Hu, Hz by lia. reflexivity.
Defined.


(** C3, as the code has it.  [download_embedding] reaches its second gate
    only when the first is passed, and there it extracts exactly when no
    file is at the configured [embedding_path].
    - When the file at [embedding_path] is on disk at the start, the
      archive is never opened for decompression and the file keeps its
      content.
    - When the archive is absent and cannot be fetched, the run raises
      and the archive is never opened for decompression, whether the file
      at [embedding_path] is there or not.
    - When [embedding_path] is not the archive's own path and the first
      gate is passed (the archive is on disk or the server delivers it),
      the archive is opened for decompression exactly when the file at
      [embedding_path] is absent at the start; and when the output can be
      opened, that extraction is carried out: the decoding of the archive
      is written to [embedding_path] line by line, and the run returns
      unless the decoder gave up. *)
Theorem extraction_iff_vectors_absent E w :
  let p := conf E "embedding_path" in
  let run := download_embedding E w in
  let evs := new_events w run.2 in
  (present w p = true → decompressions evs = 0 ∧ fs run.2 !! p = fs w !! p)
  ∧ (present w embedding_downloaded_path = false →
     ¬ fetchable E embedding_download_link embedding_downloaded_path →
     (∃ e, run.1 = Raise e) ∧ decompressions evs = 0)
  ∧ (p ≠ embedding_downloaded_path →
     present w embedding_downloaded_path = true
     ∨ fetchable E embedding_download_link embedding_downloaded_path →
     decompressions evs = (if present w p then 0 else 1)
     ∧ (present w p = false → writable E p = true →
        ∃ z, fs run.2 !! embedding_downloaded_path = Some z
             ∧ run.1 = (if (gzip_read E z).2 then Ok tt else Raise IOError)
             ∧ writes_to p evs = readlines (gzip_read E z).1
             ∧ fs run.2 !! p = Some (gzip_read E z).1)).
Proof.
  cbv zeta. split; [|split].
  - intros Hp. split.
    + destruct (download_embedding_counts E w) as (evs & Ht & _ & Hd).
      rewrite (new_events_app _ _ _ Ht), Hd. cbv zeta.
      destruct (download_if_necessary E _).1; [|done].
      unfold present. rewrite bool_decide_eq_true_2; [done|].
      apply download_if_necessary_keeps. simpl. by apply bool_decide_eq_true in Hp.
    + apply download_embedding_keeps_content. by apply bool_decide_eq_true in Hp.
  - intros Ha Hno.
    destruct (download_if_necessary_fails E (log_event w start_notice) Ha Hno) as [e He].
    split.
    + exists e. rewrite download_embedding_run.
      destruct (download_if_necessary E _) as [[[]|e'] w1]; cbn [fst] in *; congruence.
    + destruct (download_embedding_counts E w) as (evs & Ht & _ & Hd).
      rewrite (new_events_app _ _ _ Ht), Hd. cbv zeta. by rewrite He.
  - intros Hne Hpass. split.
    { destruct (download_embedding_counts E w) as (evs & Ht & _ & Hd).
      rewrite (new_events_app _ _ _ Ht), Hd. cbv zeta.
      rewrite (download_if_necessary_passes E (log_event w start_notice)) by done.
      unfold present. by rewrite download_if_necessary_others. }
    intros Hp Hwp.
    destruct (present w embedding_downloaded_path) eqn:Ha.
    + pose proof Ha as Hz. apply bool_decide_eq_true in Hz. destruct Hz as [z Hz].
      exists z. rewrite (download_embedding_extracts E w z Hz Hp Hne Hwp). cbv zeta.
      cbn [fst snd fs]. rewrite new_events_mk.
      destruct (extract_events_observed embedding_downloaded_path
                  (conf E "embedding_path") (readlines (gzip_read E z).1)) as [_ Hw].
      split; [by rewrite lookup_insert_ne|]. split; [done|].
      split; [|apply lookup_insert_eq].
      rewrite !writes_to_app, Hw.
      destruct (gzip_read E z).2; cbn -[readlines]; by rewrite ?app_nil_r.
    + destruct Hpass as [|(r & Hsrv & Hint & Hwa)]; [done|].
      exists (content r).
      rewrite (download_embedding_from_scratch E w r Ha Hp Hne Hsrv Hint Hwa Hwp).
      cbv zeta. cbn [fst snd fs]. rewrite new_events_mk.
      destruct (extract_events_observed embedding_downloaded_path
                  (conf E "embedding_path")
                  (readlines (gzip_read E (content r)).1)) as [_ Hw].
      destruct (download_events_observed embedding_download_link
                  embedding_downloaded_path (iter_content r 1048576).1
                  (conf E "embedding_path") Hne) as [_ Hw0].
      split; [by rewrite lookup_insert_ne, lookup_insert_eq|]. split; [done|].
      split; [|apply lookup_insert_eq].
      rewrite !writes_to_app, Hw, Hw0.
      destruct (gzip_read E (content r)).2; cbn -[readlines]; by rewrite ?app_nil_r.
Qed.

Lemma extraction_iff_vectors_absent_witness :
  decompressions
    (new_events Fixtures.both_present
       (download_embedding Fixtures.env0 Fixtures.both_present).2) = 0
  ∧ decompressions
      (new_events Fixtures.fresh
         (download_embedding Fixtures.env_offline Fixtures.fresh).2) = 0
  ∧ fs (download_embedding Fixtures.env0 Fixtures.fresh).2 !! Fixtures.embedding_path
    = Some (Fixtures.b ("3 4" +:+ String "010"%char "UNK cat dog")).
Proof.
  assert (conf Fixtures.env0 "embedding_path" ≠ embedding_downloaded_path) as Hne.
  { vm_compute. discriminate. }
  split; [|split].
  - apply (proj1 (extraction_iff_vectors_absent Fixtures.env0 Fixtures.both_present)).
    reflexivity.
  - apply (proj1 (proj2 (extraction_iff_vectors_absent Fixtures.env_offline
                           Fixtures.fresh))).
    + reflexivity.
    + intros (r & Hsrv & _). discriminate Hsrv.
  - destruct (proj2 (proj2 (extraction_iff_vectors_absent Fixtures.env0 Fixtures.fresh))
                Hne) as [_ Hreal].
    + right. exists {| status_code := 200; content := Fixtures.archive;
                       interrupted := false |}.
      repeat split; reflexivity.
    + destruct (Hreal eq_refl eq_refl) as (z & Hz & _ & _ & Hout).
      etrans; [exact Hout|].
      assert (z = Fixtures.archive) as ->.
      { assert (fs (download_embedding Fixtures.env0 Fixtures.fresh).2
                  !! embedding_downloaded_path = Some Fixtures.archive) as Ha
          by (vm_compute; reflexivity).
        congruence. }
      reflexivity.
Defined.

(** C3 as stated fails: with neither file on disk and a server that cannot
    be reached, the file at [embedding_path] is absent and yet the archive
    is never opened for decompression; the run raises at the download. *)
Lemma absent_vectors_without_extraction :
  present Fixtures.fresh (conf Fixtures.env_offline "embedding_path") = false
  ∧ (download_embedding Fixtures.env_offline Fixtures.fresh).1 = Raise ConnectionError
  ∧ decompressions
      (new_events Fixtures.fresh
         (download_embedding Fixtures.env_offline Fixtures.fresh).2) = 0
  ∧ fs (download_embedding Fixtures.env_offline Fixtures.fresh).2
      !! conf Fixtures.env_offline "embedding_path" = None.
Proof. vm_compute. repeat split; reflexivity. Qed.

(** C4.  With the archive and the decompressed file both on disk, a run
    of [download_embedding] returns having made no request and no
    decompression, only its first and last log calls; the files are as
    they were, and so is the outcome of any further run. *)
Theorem both_present_noop E w :
  let p := conf E "embedding_path" in
  present w embedding_downloaded_path = true → present w p = true →
  let w' := (download_embedding E w).2 in
  download_embedding E w = (Ok tt, log_events w [start_notice; done_notice p])
  ∧ fs w' = fs w
  ∧ network_calls (new_events w w') = 0
  ∧ decompressions (new_events w w') = 0
  ∧ download_embedding E w' = (Ok tt, log_events w' [start_notice; done_notice p]).
Proof.
  cbv zeta. intros Ha Hp.
  assert (∀ v, present v embedding_downloaded_path = true →
               present v (conf E "embedding_path") = true →
               download_embedding E v =
                 (Ok tt, log_events v [start_notice; done_notice (conf E "embedding_path")]))
    as Hrun.
  { intros v Hva Hvp. rewrite download_embedding_run.
    rewrite download_if_necessary_present by done.
    rewrite extract_if_necessary_present by done.
    unfold log_event, log_events. simpl. by rewrite <- app_assoc. }
  rewrite (Hrun w Ha Hp). simpl. repeat split.
  - unfold new_events. simpl. by rewrite drop_app_length.
  - unfold new_events. simpl. by rewrite drop_app_length.
  - by apply Hrun.
Qed.

Lemma both_present_noop_witness :
  present Fixtures.both_present embedding_downloaded_path = true
  ∧ present Fixtures.both_present (conf Fixtures.env0 "embedding_path") = true
  ∧ fs (download_embedding Fixtures.env0 Fixtures.both_present).2 = fs Fixtures.both_present.
Proof.
  split; [reflexivity|]. split; [reflexivity|].
  apply (both_present_noop Fixtures.env0 Fixtures.both_present); reflexivity.
Defined.

(** After a run that returned, both files are on disk: the next run is
    the one described above. *)
Corollary rerun_after_success E w :
  (download_embedding E w).1 = Ok tt →
  present (download_embedding E w).2 embedding_downloaded_path = true
  ∧ present (download_embedding E w).2 (conf E "embedding_path") = true.
Proof.
  rewrite download_embedding_run.
  pose proof (download_if_necessary_returns E (log_event w start_notice)) as H1.
  destruct (download_if_necessary E _) as [[[]|e] w1]; [|done]. simpl in H1.
  pose proof (extract_if_necessary_returns E w1) as H2.
  pose proof (extract_if_necessary_keeps E w1 embedding_downloaded_path) as H3.
  destruct (extract_if_necessary E w1) as [[[]|e] w2]; [|done]. simpl in *.
  intros _. split; [|by apply H2].
  apply bool_decide_eq_true_2, H3. by apply bool_decide_eq_true in H1.
Qed.

(** C5.  When the request is answered, the body arrives in full and the
    destination can be opened, [download_file] returns the destination
    path and leaves the destination holding exactly the bytes of the body,
    whatever it held before.  The body is written in the chunks that
    [iter_content] hands over: none empty, none over 1 MiB, and all but the
    last of exactly 1 MiB. *)
Theorem download_file_writes_body E w url dest r :
  server E url = Ok r → interrupted r = false → writable E dest = true →
  let chunks := (iter_content r 1048576).1 in
  download_file url dest E w =
    (Ok dest,
     {| fs := <[dest := content r]> (fs w);
        trace := trace w ++ download_events url dest chunks |})
  ∧ writes_to dest (download_events url dest chunks) = chunks
  ∧ concat chunks = content r
  ∧ Forall (λ c, 0 < length c ∧ (N.of_nat (length c) ≤ 1048576)%N) chunks
  ∧ (∀ i c, chunks !! i = Some c → S i < length chunks →
            N.of_nat (length c) = 1048576%N).
Proof.
  intros Hsrv Hint Hwr chunks.
  assert (concat chunks = content r) as Hcat.
  { apply chunks_of_concat; [done|lia]. }
  destruct (chunks_of_sizes (length (content r)) 1048576 (content r)) as [Hsz Hfull];
    [done|lia|].
  split; [|split; [|split; [|split]]]; try done.
  - rewrite (download_file_run _ _ _ _ _ Hsrv Hwr), Hint. cbv zeta.
    fold chunks. by rewrite Hcat.
  - unfold download_events. rewrite !writes_to_app.
    rewrite writes_to_chunk_events; [apply app_nil_r|].
    eapply Forall_impl; [exact Hsz|]. by intros c [? _].
Qed.

Lemma download_file_writes_body_witness :
  let w := {| fs := {[ "out.bin" := Fixtures.b "stale" ]}; trace := [] |} in
  (download_file embedding_download_link "out.bin" Fixtures.env0 w).1 = Ok "out.bin"
  ∧ fs (download_file embedding_download_link "out.bin" Fixtures.env0 w).2 !! "out.bin"
    = Some Fixtures.archive.
Proof.
  cbv zeta.
  destruct (download_file_writes_body Fixtures.env0
              {| fs := {[ "out.bin" := Fixtures.b "stale" ]}; trace := [] |}
              embedding_download_link "out.bin"
              {| status_code := 200; content := Fixtures.archive; interrupted := false |}
              eq_refl eq_refl eq_refl) as [Hrun _].
  rewrite Hrun. split; [reflexivity|]. simpl. apply lookup_insert_eq.
Defined.

(** C6.  When the archive decodes to the end and the output can be opened,
    the extraction opens both files, writes the decoded bytes one line at
    a time in their order (each write a line up to and including its
    newline, the last possibly without one), closes both, and leaves the
    output holding exactly the decoded bytes. *)
Theorem extract_copies_lines E w src dst z data :
  fs w !! src = Some z → gzip_read E z = (data, true) →
  writable E dst = true → src ≠ dst →
  let evs := [GzipOpen src; Open dst "w+"] ++ (FileWrite dst <$> readlines data)
             ++ [Close dst; GzipClose src] in
  extract src dst E w =
    (Ok tt, {| fs := <[dst := data]> (fs w); trace := trace w ++ evs |})
  ∧ writes_to dst evs = readlines data
  ∧ concat (readlines data) = data
  ∧ (∀ i l, readlines data !! i = Some l →
            is_line (bool_decide (S i = length (readlines data))) l).
Proof.
  intros Hsrc Hz Hwr Hne. cbv zeta. split; [|split; [|split]].
  - rewrite (extract_run _ _ _ _ _ Hsrc Hne Hwr), Hz. done.
  - rewrite !writes_to_app, writes_to_lines. apply app_nil_r.
  - apply readlines_concat.
  - apply readlines_shape.
Qed.

Lemma extract_copies_lines_witness :
  let w := {| fs := {[ embedding_downloaded_path := Fixtures.archive ]}; trace := [] |} in
  fs (extract embedding_downloaded_path Fixtures.embedding_path Fixtures.env0 w).2
    !! Fixtures.embedding_path
  = Some (Fixtures.b ("3 4" +:+ String "010"%char "UNK cat dog")).
Proof.
  cbv zeta.
  destruct (extract_copies_lines Fixtures.env0
              {| fs := {[ embedding_downloaded_path := Fixtures.archive ]}; trace := [] |}
              embedding_downloaded_path Fixtures.embedding_path Fixtures.archive
              (Fixtures.b ("3 4" +:+ String "010"%char "UNK cat dog")))
    as [Hrun _].
  - reflexivity.
  - reflexivity.
  - reflexivity.
  - vm_compute. discriminate.
  - rewrite Hrun. simpl. apply lookup_insert_eq.
Defined.

(** C7, as the code has it.  [download_file] raises what the request
    raises and what a transfer that breaks off raises.  It never looks at
    the status of the response: whatever the status, a body that arrives
    in full is written to the destination and the path is returned. *)
Theorem download_file_ignores_status E w url dest :
  (∀ e, server E url = Raise e →
        download_file url dest E w = (Raise e, log_event w (HttpGet url)))
  ∧ (∀ r, server E url = Ok r → interrupted r = true → writable E dest = true →
          (download_file url dest E w).1 = Raise ConnectionError)
  ∧ (∀ status body,
        server E url = Ok {| status_code := status; content := body; interrupted := false |} →
        writable E dest = true →
        (download_file url dest E w).1 = Ok dest
        ∧ fs (download_file url dest E w).2 = <[dest := body]> (fs w)).
Proof.
  split; [|split].
  - intros e Hsrv. by apply download_file_offline.
  - intros r Hsrv Hint Hwr. by rewrite (download_file_run _ _ _ _ _ Hsrv Hwr), Hint.
  - intros status body Hsrv Hwr.
    rewrite (download_file_run _ _ _ _ _ Hsrv Hwr). simpl.
    rewrite chunks_of_concat; [done|done|lia].
Qed.

Lemma download_file_ignores_status_witness :
  (download_file embedding_download_link "out.bin" Fixtures.env_offline Fixtures.fresh).1
    = Raise ConnectionError
  ∧ (download_file Fixtures.missing_url "out.bin" Fixtures.env0 Fixtures.fresh).1
    = Ok "out.bin".
Proof.
  split.
  - rewrite (proj1 (download_file_ignores_status Fixtures.env_offline Fixtures.fresh
                      embedding_download_link "out.bin") ConnectionError eq_refl).
    reflexivity.
  - apply (proj2 (proj2 (download_file_ignores_status Fixtures.env0 Fixtures.fresh
                           Fixtures.missing_url "out.bin"))
             404%Z (Fixtures.b "Not Found") eq_refl eq_refl).
Defined.

(** C7 as stated fails: a 404 answer is written to the destination and the
    path returned. *)
Lemma non_200_is_accepted :
  (status_code <$> (match server Fixtures.env0 Fixtures.missing_url with
                    | Ok r => Some r | Raise _ => None end)) = Some 404%Z
  ∧ download_file Fixtures.missing_url "out.bin" Fixtures.env0 Fixtures.fresh =
      (Ok "out.bin",
       {| fs := {[ "out.bin" := Fixtures.b "Not Found" ]};
          trace := [HttpGet Fixtures.missing_url; Open "out.bin" "wb";
                    Log DEBUG "Downloading chunk: 0 for file: out.bin";
                    FileWrite "out.bin" (Fixtures.b "Not Found");
                    Close "out.bin"; HttpClose Fixtures.missing_url] |}).
Proof. split; vm_compute; reflexivity. Qed.

(** C8.  For a file without "UNK" (on disk, decoding, well sized, with at
    least one record, so that a mapping is returned), every lookup of a key
    that is not a word of the file raises, at any recursion limit, and
    stores nothing. *)
Theorem missing_unk_lookup_raises E w data f :
  fs w !! conf E "embedding_path" = Some data →
  word2vec_decode E data = Some f → well_sized f = true →
  records f ≠ [] → "UNK" ∉ (records f).*1 →
  ∃ m d w',
    create_embedding_matrix E w = (Ok (m, d), w')
    ∧ ∀ limit key, key ∉ (records f).*1 →
        getitem limit d key = (Raise RuntimeError, d).
Proof.
  intros Hfile Hdec Hsz Hrec Hunk.
  destruct (create_embedding_matrix_run E w data f Hfile Hdec Hsz Hrec) as [evs Hrun].
  exists (syn0 (load_records f)), (index <$> vocab (load_records f)), (log_events w evs).
  split; [exact Hrun|].
  assert (∀ key, key ∉ (records f).*1 →
            (index <$> vocab (load_records f)) !! key = None) as Hnone.
  { intros key Hkey. unfold load_records. simpl.
    rewrite lookup_fmap, (proj2 (load_dom _ _ (∅, []) key)); [done|].
    split; [apply lookup_empty|done]. }
  intros limit key Hkey. apply getitem_raises; by apply Hnone.
Qed.

Lemma missing_unk_lookup_raises_witness :
  ∃ m d w',
    create_embedding_matrix Fixtures.env_no_unk Fixtures.vectors_present = (Ok (m, d), w')
    ∧ getitem 1000 d "zebra" = (Raise RuntimeError, d).
Proof.
  assert ("UNK" ∉ (records Fixtures.two_by_four).*1) as Hunk.
  { intros Hin. apply (bool_decide_pack _) in Hin. vm_compute in Hin. exact Hin. }
  assert ("zebra" ∉ (records Fixtures.two_by_four).*1) as Hkey.
  { intros Hin. apply (bool_decide_pack _) in Hin. vm_compute in Hin. exact Hin. }
  destruct (missing_unk_lookup_raises Fixtures.env_no_unk Fixtures.vectors_present
              (Fixtures.b "3 4") Fixtures.two_by_four eq_refl eq_refl eq_refl)
    as (m & d & w' & Hrun & Hraise).
  - discriminate.
  - exact Hunk.
  - exists m, d, w'. split; [exact Hrun|]. by apply Hraise.
Defined.




(** C10.  An answer with an empty body still leaves the destination on
    disk, empty, and the path is returned; with the archive's path as
    destination, a later run of [download_embedding] makes no request,
    whatever the server would answer. *)
Theorem empty_body_leaves_file E w url dest r :
  server E url = Ok r → content r = [] → interrupted r = false →
  writable E dest = true →
  let w' := (download_file url dest E w).2 in
  download_file url dest E w =
    (Ok dest,
     {| fs := <[dest := []]> (fs w);
        trace := trace w ++ [HttpGet url; Open dest "wb"; Close dest; HttpClose url] |})
  ∧ present w' dest = true
  ∧ (dest = embedding_downloaded_path →
     ∀ E', network_calls (new_events w' (download_embedding E' w').2) = 0).
Proof.
  intros Hsrv Hbody Hint Hwr. cbv zeta.
  rewrite (download_file_run _ _ _ _ _ Hsrv Hwr), Hint. cbv zeta.
  unfold iter_content. rewrite Hbody. simpl.
  assert (present {| fs := <[dest := []]> (fs w);
                     trace := trace w ++ download_events url dest [] |} dest = true)
    as Hp.
  { apply bool_decide_eq_true_2. simpl. rewrite lookup_insert_eq. eauto. }
  split; [done|]. split; [exact Hp|].
  intros -> E'.
  destruct (download_embedding_counts E'
              {| fs := <[embedding_downloaded_path := []]> (fs w);
                 trace := trace w ++ download_events url embedding_downloaded_path [] |})
    as (evs & Ht & Hn & _).
  rewrite (new_events_app _ _ _ Ht), Hn. by rewrite Hp.
Qed.

Lemma empty_body_leaves_file_witness :
  let w' := (download_file embedding_download_link embedding_downloaded_path
               Fixtures.env_empty_body Fixtures.fresh).2 in
  fs w' !! embedding_downloaded_path = Some []
  ∧ network_calls (new_events w' (download_embedding Fixtures.env0 w').2) = 0.
Proof.
  cbv zeta.
  destruct (empty_body_leaves_file Fixtures.env_empty_body Fixtures.fresh
              embedding_download_link embedding_downloaded_path
              {| status_code := 200; content := []; interrupted := false |}
              eq_refl eq_refl eq_refl eq_refl) as (Hrun & _ & Hnext).
  split.
  - rewrite Hrun. simpl. apply lookup_insert_eq.
  - apply Hnext. reflexivity.
Defined.

(** * Further properties of the three functions *)

(** ** download_file *)

(** X1.  Whatever the outcome, [download_file] makes exactly one request,
    and it closes the connection exactly when it returns: a run that
    raises leaves the connection to the runtime. *)
Theorem connection_closed_iff_returns E w url dest :
  let run := download_file url dest E w in
  network_calls (new_events w run.2) = 1
  ∧ closed_connections (new_events w run.2)
    = match run.1 with Ok _ => 1 | Raise _ => 0 end.
Proof.
  cbv zeta. destruct (server E url) as [r|e] eqn:Hsrv.
  - destruct (writable E dest) eqn:Hwr.
    + rewrite (download_file_run _ _ _ _ _ Hsrv Hwr). cbv zeta.
      destruct (quiet_counts _ (chunk_events_quiet dest 0
                  (iter_content r 1048576).1)) as [Hn _].
      pose proof (chunk_events_open dest 0 (iter_content r 1048576).1) as Hc.
      destruct (interrupted r); cbn [fst snd]; rewrite new_events_mk.
      * change ([?a; ?b] ++ ?l ++ ?l') with ([a] ++ [b] ++ l ++ l').
        by rewrite !network_calls_app, !closed_connections_app, Hn, Hc.
      * unfold download_events.
        change ([?a; ?b] ++ ?l ++ ?l') with ([a] ++ [b] ++ l ++ l').
        by rewrite !network_calls_app, !closed_connections_app, Hn, Hc.
    + rewrite (download_file_unwritable _ _ _ _ _ Hsrv Hwr).
      unfold log_events. cbn [fst snd]. by rewrite new_events_mk.
  - rewrite (download_file_offline _ _ _ _ _ Hsrv).
    unfold log_event. cbn [fst snd]. by rewrite new_events_mk.
Qed.

(** X2.  When the transfer breaks off, [download_file] raises, but the
    destination is left on disk, closed, holding the bytes that arrived
    before the break, written chunk by chunk. *)
Theorem interrupted_download_leaves_partial_file E w url dest r :
  server E url = Ok r → interrupted r = true → writable E dest = true →
  let run := download_file url dest E w in
  run.1 = Raise ConnectionError
  ∧ fs run.2 = <[dest := content r]> (fs w)
  ∧ writes_to dest (new_events w run.2) = (iter_content r 1048576).1
  ∧ last (new_events w run.2) = Some (Close dest).
Proof.
  intros Hsrv Hint Hwr. cbv zeta.
  rewrite (download_file_run _ _ _ _ _ Hsrv Hwr), Hint. cbv zeta. cbn [fst snd].
  rewrite new_events_mk.
  destruct (chunks_of_sizes (length (content r)) 1048576 (content r)) as [Hsz _];
    [done|lia|].
  split; [done|]. split; [|split].
  - cbn [fs]. unfold iter_content. cbn [fst]. by rewrite chunks_of_concat by (done || lia).
  - rewrite !writes_to_app, writes_to_chunk_events; [apply app_nil_r|].
    eapply Forall_impl; [exact Hsz|]. by intros c [? _].
  - by rewrite !app_assoc, last_snoc.
Qed.

Lemma interrupted_download_leaves_partial_file_witness :
  (download_file embedding_download_link "out.bin" Fixtures.env_cut Fixtures.fresh).1
    = Raise ConnectionError
  ∧ fs (download_file embedding_download_link "out.bin" Fixtures.env_cut Fixtures.fresh).2
      !! "out.bin" = Some (Fixtures.b "part").
Proof.
  destruct (interrupted_download_leaves_partial_file Fixtures.env_cut Fixtures.fresh
              embedding_download_link "out.bin"
              {| status_code := 200; content := Fixtures.b "part"; interrupted := true |}
              eq_refl eq_refl eq_refl) as (Hres & Hfs & _).
  split; [exact Hres|]. rewrite Hfs. apply lookup_insert_eq.
Defined.

(** X3.  [download_file] changes no file but its destination.  Either no
    file changes at all, or the request was answered and the destination
    opened, and the destination then holds the bytes that arrived. *)
Theorem download_file_frame E w url dest :
  let run := download_file url dest E w in
  (∀ p, p ≠ dest → fs run.2 !! p = fs w !! p)
  ∧ (fs run.2 = fs w
     ∨ ∃ r, server E url = Ok r ∧ writable E dest = true
            ∧ fs run.2 = <[dest := content r]> (fs w)).
Proof.
  cbv zeta. split; [intros p Hp; by apply download_file_others|].
  destruct (server E url) as [r|e] eqn:Hsrv.
  - destruct (writable E dest) eqn:Hwr.
    + right. exists r. split; [done|]. split; [done|].
      rewrite (download_file_run _ _ _ _ _ Hsrv Hwr). cbv zeta.
      unfold iter_content. cbn [fst].
      rewrite chunks_of_concat by (done || lia). by destruct (interrupted r).
    + left. by rewrite (download_file_unwritable _ _ _ _ _ Hsrv Hwr).
  - left. by rewrite (download_file_offline _ _ _ _ _ Hsrv).
Qed.

Lemma download_file_frame_witness :
  fs (download_file embedding_download_link "out.bin" Fixtures.env0
        Fixtures.notes_present).2 !! "notes.txt" = Some (Fixtures.b "keep").
Proof.
  rewrite (proj1 (download_file_frame Fixtures.env0 Fixtures.notes_present
                    embedding_download_link "out.bin") "notes.txt").
  - reflexivity.
  - vm_compute. discriminate.
Defined.

(** X4.  When the request is answered and the destination opened, the
    loop of [download_file] makes one pass, with one debug log call, per
    started MiB of the bytes that arrive: the length over 1048576, rounded
    up, and none for an empty body. *)
Theorem download_file_chunk_count E w url dest r :
  server E url = Ok r → writable E dest = true →
  N.of_nat (chunks_logged (new_events w (download_file url dest E w).2))
  = ((N.of_nat (length (content r)) + 1048576 - 1) / 1048576)%N.
Proof.
  intros Hsrv Hwr.
  rewrite (download_file_run _ _ _ _ _ Hsrv Hwr). cbv zeta.
  rewrite <- (chunks_of_count (length (content r)) 1048576 (content r)) by (done || lia).
  f_equal. unfold iter_content. cbn [fst].
  destruct (interrupted r); cbn [fst snd]; rewrite new_events_mk.
  - change ([?a; ?b] ++ ?l ++ ?l') with ([a; b] ++ l ++ l').
    by rewrite !chunks_logged_app, chunk_events_logged.
  - unfold download_events. by rewrite !chunks_logged_app, chunk_events_logged.
Qed.

Lemma download_file_chunk_count_witness :
  chunks_logged
    (new_events Fixtures.fresh
       (download_file embedding_download_link "out.bin" Fixtures.env0 Fixtures.fresh).2)
  = 1.
Proof.
  apply Nat2N.inj.
  rewrite (download_file_chunk_count Fixtures.env0 Fixtures.fresh embedding_download_link
             "out.bin"
             {| status_code := 200; content := Fixtures.archive; interrupted := false |}
             eq_refl eq_refl).
  reflexivity.
Defined.

(** ** download_embedding *)
(** X5.  From a disk with neither file, with a server that delivers the
    archive, paths that can be opened and an archive that decodes to its
    end, a run returns with the archive holding the body and the
    configured path holding its decoding; the request and the download
    come first, the extraction after, the closing log call last. *)
Theorem fresh_run_downloads_then_extracts E w r data :
  present w embedding_downloaded_path = false →
  present w (conf E "embedding_path") = false →
  conf E "embedding_path" ≠ embedding_downloaded_path →
  server E embedding_download_link = Ok r → interrupted r = false →
  writable E embedding_downloaded_path = true →
  writable E (conf E "embedding_path") = true →
  gzip_read E (content r) = (data, true) →
  let p := conf E "embedding_path" in
  download_embedding E w =
    (Ok tt,
     {| fs := <[p := data]> (<[embedding_downloaded_path := content r]> (fs w));
        trace := trace w ++ [start_notice] ++ download_notice
                 ++ download_events embedding_download_link embedding_downloaded_path
                      (iter_content r 1048576).1
                 ++ extract_notice p
                 ++ extract_events embedding_downloaded_path p (readlines data)
                 ++ [done_notice p] |}).
Proof.
  intros Ha Hp Hne Hsrv Hint Hwa Hwp Hz. cbv zeta.
  rewrite (download_embedding_from_scratch E w r) by done. cbv zeta. by rewrite Hz.
Qed.

Lemma fresh_run_downloads_then_extracts_witness :
  (download_embedding Fixtures.env0 Fixtures.fresh).1 = Ok tt
  ∧ fs (download_embedding Fixtures.env0 Fixtures.fresh).2 !! Fixtures.embedding_path
    = Some (Fixtures.b ("3 4" +:+ String "010"%char "UNK cat dog")).
Proof.
  assert (conf Fixtures.env0 "embedding_path" ≠ embedding_downloaded_path) as Hne.
  { vm_compute. discriminate. }
  rewrite (fresh_run_downloads_then_extracts Fixtures.env0 Fixtures.fresh
             {| status_code := 200; content := Fixtures.archive; interrupted := false |}
             (Fixtures.b ("3 4" +:+ String "010"%char "UNK cat dog"))
             eq_refl eq_refl Hne eq_refl eq_refl eq_refl eq_refl eq_refl).
  split; [reflexivity|]. apply lookup_insert_eq.
Defined.

(** X6.  When the archive is absent and the request raises, the run raises
    the same exception right after the request: no file changes, nothing
    is opened, no extraction is attempted and the closing log call is not
    made. *)
Theorem failed_fetch_stops_run E w e :
  present w embedding_downloaded_path = false →
  server E embedding_download_link = Raise e →
  download_embedding E w =
    (Raise e,
     log_events w ([start_notice] ++ download_notice ++ [HttpGet embedding_download_link])).
Proof.
  intros Ha Hsrv. rewrite download_embedding_run.
  rewrite download_if_necessary_absent by done.
  unfold mbind, IO_bind. rewrite (download_file_offline _ _ _ _ _ Hsrv).
  unfold log_event, log_events. cbn [fs trace]. by rewrite <- !app_assoc.
Qed.

Lemma failed_fetch_stops_run_witness :
  (download_embedding Fixtures.env_offline Fixtures.fresh).1 = Raise ConnectionError
  ∧ fs (download_embedding Fixtures.env_offline Fixtures.fresh).2 = ∅.
Proof.
  rewrite (failed_fetch_stops_run Fixtures.env_offline Fixtures.fresh ConnectionError
             eq_refl eq_refl).
  split; reflexivity.
Defined.

(** X7.  A download that breaks off is never repaired.  The run raises,
    the archive's path holds the bytes that arrived, and since only
    presence is checked, no later run, whatever the server then does, makes
    a request. *)
Theorem truncated_archive_is_kept E w r :
  present w embedding_downloaded_path = false →
  server E embedding_download_link = Ok r → interrupted r = true →
  writable E embedding_downloaded_path = true →
  let w' := (download_embedding E w).2 in
  (download_embedding E w).1 = Raise ConnectionError
  ∧ fs w' !! embedding_downloaded_path = Some (content r)
  ∧ ∀ E', network_calls (new_events w' (download_embedding E' w').2) = 0.
Proof.
  intros Ha Hsrv Hint Hwa. cbv zeta.
  assert ((download_embedding E w).1 = Raise ConnectionError
          ∧ fs (download_embedding E w).2 !! embedding_downloaded_path
            = Some (content r)) as [Hres Hfs].
  { rewrite download_embedding_run.
    rewrite download_if_necessary_absent by done.
    unfold mbind, IO_bind.
    rewrite (download_file_run _ _ _ _ _ Hsrv Hwa), Hint. cbv zeta.
    unfold iter_content. cbn [fst snd fs].
    rewrite chunks_of_concat by (done || lia). split; [done|]. apply lookup_insert_eq. }
  split; [done|]. split; [done|]. intros E'.
  destruct (download_embedding_counts E' (download_embedding E w).2)
    as (evs & Ht & Hn & _).
  rewrite (new_events_app _ _ _ Ht), Hn.
  unfold present. rewrite Hfs. by rewrite bool_decide_eq_true_2.
Qed.

Lemma truncated_archive_is_kept_witness :
  let w' := (download_embedding Fixtures.env_cut Fixtures.fresh).2 in
  fs w' !! embedding_downloaded_path = Some (Fixtures.b "part")
  ∧ network_calls (new_events w' (download_embedding Fixtures.env0 w').2) = 0.
Proof.
  cbv zeta.
  destruct (truncated_archive_is_kept Fixtures.env_cut Fixtures.fresh
              {| status_code := 200; content := Fixtures.b "part"; interrupted := true |}
              eq_refl eq_refl eq_refl eq_refl) as (_ & Hfs & Hnext).
  split; [exact Hfs|apply Hnext].
Defined.

(** X8.  An extraction that fails is never retried.  With the archive on
    disk but not decoding to its end, the run raises; the output path is
    left holding what the decoder delivered, and since only presence is
    checked, the next run under the same configuration returns without a
    request or a decompression. *)
Theorem failed_extraction_is_not_retried E w z :
  fs w !! embedding_downloaded_path = Some z →
  present w (conf E "embedding_path") = false →
  conf E "embedding_path" ≠ embedding_downloaded_path →
  writable E (conf E "embedding_path") = true →
  (gzip_read E z).2 = false →
  let p := conf E "embedding_path" in
  let w' := (download_embedding E w).2 in
  (download_embedding E w).1 = Raise IOError
  ∧ fs w' !! p = Some (gzip_read E z).1
  ∧ fs w' !! embedding_downloaded_path = Some z
  ∧ ∀ E', conf E' "embedding_path" = p →
          download_embedding E' w' = (Ok tt, log_events w' [start_notice; done_notice p]).
Proof.
  intros Hz Hp Hne Hwp Hbad. cbv zeta.
  assert (present w embedding_downloaded_path = true) as Ha.
  { apply bool_decide_eq_true_2. rewrite Hz. eauto. }
  assert (download_embedding E w =
            (Raise IOError,
             {| fs := <[conf E "embedding_path" := (gzip_read E z).1]> (fs w);
                trace := trace w ++ [start_notice]
                         ++ extract_notice (conf E "embedding_path")
                         ++ extract_events embedding_downloaded_path
                              (conf E "embedding_path")
                              (readlines (gzip_read E z).1) |})) as Hrun.
  { rewrite download_embedding_run.
    rewrite download_if_necessary_present by done.
    rewrite extract_if_necessary_absent by done.
    erewrite extract_run; [|exact Hz|done|done]. rewrite Hbad.
    unfold log_events, log_event. cbn [fs trace]. by rewrite <- !app_assoc. }
  rewrite Hrun. cbn [fst snd fs].
  split; [done|]. split; [apply lookup_insert_eq|].
  split; [by rewrite lookup_insert_ne|].
  intros E' Hconf. rewrite <- Hconf. apply download_embedding_settled.
  - apply bool_decide_eq_true_2. rewrite Hconf. cbn [fs].
    rewrite lookup_insert_ne by done. rewrite Hz. eauto.
  - apply bool_decide_eq_true_2. rewrite Hconf. cbn [fs].
    rewrite lookup_insert_eq. eauto.
Qed.

Lemma failed_extraction_is_not_retried_witness :
  let w' := (download_embedding Fixtures.env0 Fixtures.corrupt_archive_present).2 in
  (download_embedding Fixtures.env0 Fixtures.corrupt_archive_present).1 = Raise IOError
  ∧ (download_embedding Fixtures.env0 w').1 = Ok tt.
Proof.
  cbv zeta.
  assert (conf Fixtures.env0 "embedding_path" ≠ embedding_downloaded_path) as Hne.
  { vm_compute. discriminate. }
  destruct (failed_extraction_is_not_retried Fixtures.env0 Fixtures.corrupt_archive_present
              (Fixtures.b "garbage") eq_refl eq_refl Hne eq_refl eq_refl)
    as (Hres & _ & _ & Hnext).
  split; [exact Hres|]. by rewrite (Hnext Fixtures.env0 eq_refl).
Defined.

(** X9.  A run of [download_embedding] never changes or removes a file
    that is on disk when it starts, whatever its outcome: each path keeps
    what it held, or held nothing and is the archive's path or the
    configured one. *)
Theorem download_embedding_frame E w q :
  let w' := (download_embedding E w).2 in
  fs w' !! q = fs w !! q
  ∨ fs w !! q = None
    ∧ (q = embedding_downloaded_path ∨ q = conf E "embedding_path").
Proof.
  cbv zeta. rewrite download_embedding_run.
  pose proof (download_if_necessary_frame E (log_event w start_notice) q) as H1.
  destruct (download_if_necessary E _) as [[[]|e] w1]; cbn [fst snd] in *; cycle 1.
  { destruct H1 as [?|[? ?]]; [by left|right; auto]. }
  pose proof (extract_if_necessary_frame E w1 q) as H2.
  destruct (extract_if_necessary E w1) as [[[]|e] w2]; cbn [fst snd fs log_event] in *.
  - destruct H2 as [H2|[H2 ->]]; destruct H1 as [H1|[H1 ?]];
      first [left; congruence | right; split; [congruence|auto]].
  - destruct H2 as [H2|[H2 ->]]; destruct H1 as [H1|[H1 ?]];
      first [left; congruence | right; split; [congruence|auto]].
Qed.

Lemma download_embedding_frame_witness :
  fs (download_embedding Fixtures.env0 Fixtures.notes_present).2 !! "notes.txt"
  = Some (Fixtures.b "keep").
Proof.
  destruct (download_embedding_frame Fixtures.env0 Fixtures.notes_present "notes.txt")
    as [Hkept|[Hnone _]].
  - exact Hkept.
  - vm_compute in Hnone. discriminate Hnone.
Defined.

(** X10.  When the configuration names the archive's own path, a run
    never decompresses: past the first gate the path is on disk, so the
    second gate finds it present. *)
Theorem alias_path_never_extracts E w :
  conf E "embedding_path" = embedding_downloaded_path →
  decompressions (new_events w (download_embedding E w).2) = 0.
Proof.
  intros Halias.
  destruct (download_embedding_counts E w) as (evs & Ht & _ & Hd).
  rewrite (new_events_app _ _ _ Ht), Hd. cbv zeta.
  pose proof (download_if_necessary_returns E (log_event w start_notice)) as Hret.
  destruct (download_if_necessary E _) as [[[]|e] w1]; cbn [fst snd] in *; [|done].
  by rewrite Halias, Hret.
Qed.

Lemma alias_path_never_extracts_witness :
  decompressions
    (new_events Fixtures.fresh (download_embedding Fixtures.env_alias Fixtures.fresh).2)
  = 0.
Proof. apply (alias_path_never_extracts Fixtures.env_alias Fixtures.fresh). reflexivity. Defined.

(** X11.  When the output cannot be opened, the run raises from the
    extraction; the archive, opened first, is closed on the way out, and
    no file changes. *)
Theorem unwritable_output_closes_archive E w :
  present w embedding_downloaded_path = true →
  present w (conf E "embedding_path") = false →
  writable E (conf E "embedding_path") = false →
  let p := conf E "embedding_path" in
  download_embedding E w =
    (Raise IOError,
     log_events w ([start_notice] ++ extract_notice p
                   ++ [GzipOpen embedding_downloaded_path; Open p "w+";
                       GzipClose embedding_downloaded_path])).
Proof.
  intros Ha Hp Hwp. cbv zeta. rewrite download_embedding_run.
  rewrite download_if_necessary_present by done.
  rewrite extract_if_necessary_absent by done.
  rewrite extract_unwritable by done.
  unfold log_events, log_event. cbn [fs trace]. by rewrite <- !app_assoc.
Qed.

Lemma unwritable_output_closes_archive_witness :
  (download_embedding Fixtures.env_readonly Fixtures.archive_present).1 = Raise IOError
  ∧ fs (download_embedding Fixtures.env_readonly Fixtures.archive_present).2
    = fs Fixtures.archive_present.
Proof.
  rewrite (unwritable_output_closes_archive Fixtures.env_readonly Fixtures.archive_present
             eq_refl eq_refl eq_refl).
  split; reflexivity.
Defined.

(** ** create_embedding_matrix *)
Lemma load_bounds n k recs acc :
  length acc.2 = size acc.1 →
  (∀ word v, acc.1 !! word = Some v → index v < size acc.1) →
  Forall (λ row, length row = k) acc.2 →
  Forall (λ r : string * list Z, length r.2 = k) recs →
  length (foldl (add_word n) acc recs).2 = size (foldl (add_word n) acc recs).1
  ∧ (∀ word v, (foldl (add_word n) acc recs).1 !! word = Some v →
               index v < size (foldl (add_word n) acc recs).1)
  ∧ Forall (λ row, length row = k) (foldl (add_word n) acc recs).2.
Proof.
  revert acc. induction recs as [|r recs IH]; intros acc Hlen Hidx Hrows Hrecs; [done|].
  inversion Hrecs as [|? ? Hr Hrecs']; subst. simpl. apply IH; [| | |done].
  - unfold add_word. destruct (acc.1 !! r.1) eqn:Hw; [done|]. simpl.
    rewrite length_app, map_size_insert_None by done. simpl. lia.
  - intros word v. unfold add_word. destruct (acc.1 !! r.1) eqn:Hw; [apply Hidx|].
    simpl. rewrite map_size_insert_None by done.
    destruct (decide (r.1 = word)) as [->|Hne].
    + rewrite lookup_insert_eq. intros [= <-]. simpl. lia.
    + rewrite lookup_insert_ne by done. intros Hv. specialize (Hidx _ _ Hv). lia.
  - unfold add_word. destruct (acc.1 !! r.1); [done|]. simpl.
    apply Forall_app. split; [done|]. by constructor.
Qed.

Lemma getitem_result limit (d : gmap string nat) key v :
  (getitem limit d key).1 = Ok v → d !! key = Some v ∨ d !! "UNK" = Some v.
Proof.
  destruct (d !! key) as [v'|] eqn:Hk.
  - rewrite (getitem_hit _ _ _ _ Hk). intros [= <-]. by left.
  - destruct limit as [|limit]; [simpl; by rewrite Hk|].
    destruct (d !! "UNK") as [u|] eqn:Hu.
    + rewrite (getitem_default _ _ _ _ Hk Hu). intros [= <-]. by right.
    + by rewrite getitem_raises.
Qed.

Lemma lookups_bounded n limit (d : gmap string nat) keys :
  map_Forall (λ _ v, v < n) d →
  Forall (λ res, ∀ i, res = Ok i → i < n) (lookups limit d keys).1.
Proof.
  revert d. induction keys as [|key keys IH]; intros d Hd; [constructor|].
  simpl. pose proof (getitem_cases limit d key) as Hcase.
  pose proof (getitem_result limit d key) as Hres.
  destruct (getitem limit d key) as [r d1]. cbn [fst snd] in *.
  assert (map_Forall (λ _ v, v < n) d1) as Hd1.
  { destruct Hcase as [->|(_ & u & Hu & ->)]; [done|].
    apply map_Forall_insert_2; [|done]. by apply (Hd "UNK"). }
  specialize (IH d1 Hd1). destruct (lookups limit d1 keys) as [rs d2]. simpl.
  constructor; [|done]. intros i ->.
  destruct (Hres i eq_refl) as [Hi|Hi]; by eapply Hd.
Qed.

(** X12.  For a vector file with a header and no record,
    [create_embedding_matrix] raises [ValueError] from the [min] in its
    last log call: no matrix and no mapping are returned. *)
Theorem empty_vocabulary_raises E w data f :
  fs w !! conf E "embedding_path" = Some data →
  word2vec_decode E data = Some f → records f = [] →
  (create_embedding_matrix E w).1 = Raise ValueError.
Proof.
  intros Hfile Hdec Hrec.
  unfold create_embedding_matrix, logging.
  rewrite (bind_ok _ _ _ _ _ _ (emit_run _ _ _)).
  rewrite (bind_ok _ _ _ _ _ _ (get_conf_run _ _ _)).
  assert (∀ v, fs v = fs w →
            load_word2vec_format (conf E "embedding_path") E v =
              (Ok (load_records f),
               log_events v [Open (conf E "embedding_path") "rb";
                             Close (conf E "embedding_path")])) as Hload.
  { intros v Hv. unfold load_word2vec_format, read_fs.
    unfold mbind at 1, IO_bind at 1. rewrite Hv, Hfile.
    eapply with_run; [apply emit_run| |].
    - unfold ask, mbind, IO_bind. rewrite Hdec. unfold well_sized. by rewrite Hrec.
    - unfold file_close, emit, log_event, log_events. simpl. by rewrite <- app_assoc. }
  rewrite (bind_ok _ _ _ _ _ _ (Hload (log_event w _) eq_refl)). cbv zeta.
  rewrite update_fresh.
  rewrite (bind_ok _ _ _ _ _ _ (emit_run _ _ _)).
  erewrite bind_raise; [done|].
  unfold lift, load_records. rewrite Hrec. simpl.
  unfold values. by rewrite fmap_empty, map_to_list_empty.
Qed.

Lemma empty_vocabulary_raises_witness :
  (create_embedding_matrix Fixtures.env_no_records Fixtures.vectors_present).1
  = Raise ValueError.
Proof.
  apply (empty_vocabulary_raises Fixtures.env_no_records Fixtures.vectors_present
           (Fixtures.b "3 4") Fixtures.no_records); reflexivity.
Defined.

(** X13.  Every row index that the returned mapping ever answers is a row
    of the returned matrix, whatever is looked up and in whatever order,
    with or without "UNK" and with or without repeated words in the file;
    and every row of the matrix has the announced number of columns. *)
Theorem lookups_stay_in_bounds E w data f :
  fs w !! conf E "embedding_path" = Some data →
  word2vec_decode E data = Some f → well_sized f = true → records f ≠ [] →
  ∃ m d w',
    create_embedding_matrix E w = (Ok (m, d), w')
    ∧ shape m = (length (rows m), vector_size f)
    ∧ Forall (λ row, length row = vector_size f) (rows m)
    ∧ ∀ limit keys,
        Forall (λ res, ∀ i, res = Ok i → i < length (rows m)) (lookups limit d keys).1.
Proof.
  intros Hfile Hdec Hsz Hrec.
  destruct (create_embedding_matrix_run E w data f Hfile Hdec Hsz Hrec) as [evs Hrun].
  destruct (load_bounds (length (records f)) (vector_size f) (records f) (∅, []))
    as (Hlen & Hidx & Hrows); [done|done|constructor| |].
  { apply well_sized_rows in Hsz. by rewrite Forall_fmap in Hsz. }
  exists (syn0 (load_records f)), (index <$> vocab (load_records f)), (log_events w evs).
  unfold load_records in *. cbn [syn0 vocab shape rows] in *.
  split; [exact Hrun|]. split; [by rewrite Hlen|]. split; [done|].
  intros limit keys. apply lookups_bounded.
  intros word i. rewrite lookup_fmap, fmap_Some. intros (v & Hv & ->).
  rewrite Hlen. by eapply Hidx.
Qed.

Lemma lookups_stay_in_bounds_witness :
  ∃ m d w',
    create_embedding_matrix Fixtures.env_no_unk Fixtures.vectors_present = (Ok (m, d), w')
    ∧ Forall (λ res, ∀ i, res = Ok i → i < length (rows m))
        (lookups 1000 d ["dog"; "zebra"; "cat"]).1.
Proof.
  destruct (lookups_stay_in_bounds Fixtures.env_no_unk Fixtures.vectors_present
              (Fixtures.b "3 4") Fixtures.two_by_four eq_refl eq_refl eq_refl)
    as (m & d & w' & Hrun & _ & _ & Hin).
  - discriminate.
  - exists m, d, w'. split; [exact Hrun|apply Hin].
Defined.

(** X14.  With "UNK" in the mapping and a frame to spare, a sequence of
    lookups answers like the total function that gives a key its own row
    or else the row of "UNK"; afterwards the mapping holds exactly its old
    entries and, under that row, every key that was looked up. *)
Theorem lookups_resolve limit (d : gmap string nat) keys u :
  d !! "UNK" = Some u → 0 < limit →
  (lookups limit d keys).1 = (λ k, Ok (resolve u d k)) <$> keys
  ∧ ∀ k, (lookups limit d keys).2 !! k
         = if bool_decide (k ∈ keys) then Some (resolve u d k) else d !! k.
Proof.
  intros Hu Hlimit. destruct limit as [|limit]; [lia|]. clear Hlimit.
  revert d Hu. induction keys as [|key keys IH]; intros d Hu.
  { split; [done|]. intros k. by rewrite bool_decide_eq_false_2 by apply not_elem_of_nil. }
  cbn [lookups]. destruct (d !! key) as [v|] eqn:Hk.
  - rewrite (getitem_hit _ _ _ _ Hk).
    destruct (IH d Hu) as [IH1 IH2]. destruct (lookups (S limit) d keys) as [rs d2].
    cbn [fst snd] in *. split.
    + rewrite fmap_cons, IH1.
      replace (resolve u d key) with v by (unfold resolve; by rewrite Hk). done.
    + intros k. rewrite IH2. destruct (decide (k ∈ keys)) as [Hin|Hnin].
      * rewrite !bool_decide_eq_true_2; [done| |done]. by apply list_elem_of_further.
      * rewrite (bool_decide_eq_false_2 _ Hnin).
        destruct (decide (k = key)) as [->|Hne].
        { rewrite bool_decide_eq_true_2 by apply list_elem_of_here.
          unfold resolve. by rewrite Hk. }
        rewrite bool_decide_eq_false_2; [done|]. rewrite not_elem_of_cons. done.
  - rewrite (getitem_default _ _ _ _ Hk Hu).
    assert (key ≠ "UNK") as Hne by (intros ->; congruence).
    assert (∀ k, resolve u (<[key := u]> d) k = resolve u d k) as Hsame.
    { intros k. unfold resolve. destruct (decide (key = k)) as [<-|Hkk].
      - by rewrite lookup_insert_eq, Hk.
      - by rewrite lookup_insert_ne. }
    destruct (IH (<[key := u]> d)) as [IH1 IH2]; [by rewrite lookup_insert_ne|].
    destruct (lookups (S limit) (<[key := u]> d) keys) as [rs d2].
    cbn [fst snd] in *. split.
    + rewrite fmap_cons, IH1.
      replace (resolve u d key) with u by (unfold resolve; by rewrite Hk).
      f_equal. apply list_fmap_ext. intros _ k _. by rewrite Hsame.
    + intros k. rewrite IH2, Hsame. destruct (decide (k ∈ keys)) as [Hin|Hnin].
      * rewrite !bool_decide_eq_true_2; [done| |done]. by apply list_elem_of_further.
      * rewrite (bool_decide_eq_false_2 _ Hnin).
        destruct (decide (k = key)) as [->|Hkk].
        { rewrite bool_decide_eq_true_2 by apply list_elem_of_here.
          rewrite lookup_insert_eq. unfold resolve. by rewrite Hk. }
        rewrite bool_decide_eq_false_2 by (rewrite not_elem_of_cons; done).
        by rewrite lookup_insert_ne.
Qed.

Lemma lookups_resolve_witness :
  (lookups 1000 Fixtures.mapping0 ["dog"; "zebra"; "zebra"]).1 = [Ok 2; Ok 1; Ok 1].
Proof.
  rewrite (proj1 (lookups_resolve 1000 Fixtures.mapping0 ["dog"; "zebra"; "zebra"] 1
                    eq_refl ltac:(lia))).
  reflexivity.
Defined.

(** X15.  Without "UNK" in the mapping, a sequence of lookups answers the
    row of every key that is in the mapping and raises for every other,
    at any recursion limit, and the mapping stays as it was. *)
Theorem lookups_without_unk limit (d : gmap string nat) keys :
  d !! "UNK" = None →
  lookups limit d keys
  = ((λ k, match d !! k with Some v => Ok v | None => Raise RuntimeError end) <$> keys, d).
Proof.
  intros Hu. induction keys as [|key keys IH]; [done|].
  cbn [lookups]. destruct (d !! key) as [v|] eqn:Hk.
  - rewrite (getitem_hit _ _ _ _ Hk), IH, fmap_cons. by rewrite Hk.
  - rewrite (getitem_raises _ _ _ Hk Hu), IH, fmap_cons. by rewrite Hk.
Qed.

Lemma lookups_without_unk_witness :
  lookups 1000 Fixtures.mapping_no_unk ["dog"; "zebra"]
  = ([Ok 1; Raise RuntimeError], Fixtures.mapping_no_unk).
Proof.
  rewrite (lookups_without_unk 1000 Fixtures.mapping_no_unk ["dog"; "zebra"] eq_refl).
  reflexivity.
Defined.

Section ReadsOnly.
Context {A B : Type}.

Lemma reads_only_ret (a : A) : reads_only (mret a).
Proof. done. Qed.

Lemma reads_only_raise e : reads_only (raise e : IO A).
Proof. done. Qed.

Lemma reads_only_lift (r : result A) : reads_only (lift r).
Proof. done. Qed.

Lemma reads_only_bind (m : IO A) (f : A → IO B) :
  reads_only m → (∀ a, reads_only (f a)) → reads_only (m ≫= f).
Proof.
  intros Hm Hf E w. specialize (Hm E w).
  destruct (m E w) as [[a|e] w1] eqn:Hrun; simpl in Hm.
  - rewrite (bind_ok _ _ _ _ _ _ Hrun), <- Hm. apply Hf.
  - by rewrite (bind_raise _ _ _ _ _ _ Hrun).
Qed.

Lemma reads_only_attempt (m : IO A) : reads_only m → reads_only (attempt m).
Proof. intros Hm E w. specialize (Hm E w). unfold attempt. by destruct (m E w). Qed.

End ReadsOnly.

Lemma reads_only_emit ev : reads_only (emit ev).
Proof. done. Qed.

Lemma reads_only_ask : reads_only ask.
Proof. done. Qed.

Lemma reads_only_read_fs : reads_only read_fs.
Proof. done. Qed.

Lemma reads_only_with {A} (enter exit : IO unit) (body : IO A) :
  reads_only enter → reads_only exit → reads_only body →
  reads_only (with_ enter exit body).
Proof.
  intros He Hx Hb. unfold with_.
  apply reads_only_bind; [done|]. intros _.
  apply reads_only_bind; [by apply reads_only_attempt|]. intros r.
  apply reads_only_bind; [done|]. intros _. apply reads_only_lift.
Qed.

(** X16.  [create_embedding_matrix] changes no file, whether it returns
    or raises, whatever is on disk and however the file decodes. *)
Theorem create_embedding_matrix_reads_only E w :
  fs (create_embedding_matrix E w).2 = fs w.
Proof.
  revert E w. change (reads_only create_embedding_matrix).
  unfold create_embedding_matrix, load_word2vec_format, logging, get_conf, file_close.
  repeat first
    [ match goal with |- ∀ _, _ => intro end
    | apply reads_only_ret | apply reads_only_raise | apply reads_only_lift
    | apply reads_only_emit | apply reads_only_ask | apply reads_only_read_fs
    | apply reads_only_with | apply reads_only_bind
    | match goal with
      | |- reads_only (if ?c then _ else _) => destruct c
      | |- reads_only (match ?c with _ => _ end) => destruct c
      end ].
Qed.

(** X17.  The two steps compose.  From a disk with neither file, when the
    server delivers an archive that decodes to a vector file with at least
    one record and vectors of the announced size, [download_embedding]
    followed by [create_embedding_matrix] returns the matrix and the
    mapping of that file. *)
Theorem fresh_run_then_load E w r data f :
  present w embedding_downloaded_path = false →
  present w (conf E "embedding_path") = false →
  conf E "embedding_path" ≠ embedding_downloaded_path →
  server E embedding_download_link = Ok r → interrupted r = false →
  writable E embedding_downloaded_path = true →
  writable E (conf E "embedding_path") = true →
  gzip_read E (content r) = (data, true) →
  word2vec_decode E data = Some f → well_sized f = true → records f ≠ [] →
  ∃ w',
    (download_embedding;; create_embedding_matrix) E w
    = (Ok (syn0 (load_records f), index <$> vocab (load_records f)), w')
    ∧ fs w' = <[conf E "embedding_path" := data]>
                (<[embedding_downloaded_path := content r]> (fs w)).
Proof.
  intros Ha Hp Hne Hsrv Hint Hwa Hwp Hz Hdec Hsz Hrec.
  pose proof (download_embedding_from_scratch E w r Ha Hp Hne Hsrv Hint Hwa Hwp) as Hd.
  cbv zeta in Hd. rewrite Hz in Hd. cbn [fst snd] in Hd.
  rewrite (bind_ok _ _ _ _ _ _ Hd).
  match goal with |- context [create_embedding_matrix E ?v] =>
    destruct (create_embedding_matrix_run E v data f) as [evs Hrun];
      [cbn [fs]; apply lookup_insert_eq|exact Hdec|exact Hsz|exact Hrec|]
  end.
  rewrite Hrun. eexists. split; [reflexivity|done].
Qed.

Lemma fresh_run_then_load_witness :
  ∃ w', (download_embedding;; create_embedding_matrix) Fixtures.env0 Fixtures.fresh
        = (Ok (syn0 (load_records Fixtures.three_by_four), Fixtures.mapping0), w').
Proof.
  assert (conf Fixtures.env0 "embedding_path" ≠ embedding_downloaded_path) as Hne.
  { vm_compute. discriminate. }
  destruct (fresh_run_then_load Fixtures.env0 Fixtures.fresh
              {| status_code := 200; content := Fixtures.archive; interrupted := false |}
              (Fixtures.b ("3 4" +:+ String "010"%char "UNK cat dog"))
              Fixtures.three_by_four
              eq_refl eq_refl Hne eq_refl eq_refl eq_refl eq_refl eq_refl eq_refl eq_refl)
    as (w' & Hrun & _).
  - discriminate.
  - exists w'. rewrite Hrun. reflexivity.
Defined.

(** X18.  [download_embedding] is idempotent from any start: after a run
    that returned, whatever it had to do, a second run under the same
    environment returns having made only its first and last log calls. *)
Theorem second_run_is_noop E w :
  (download_embedding E w).1 = Ok tt →
  let w' := (download_embedding E w).2 in
  download_embedding E w'
  = (Ok tt, log_events w' [start_notice; done_notice (conf E "embedding_path")]).
Proof.
  intros Hok. cbv zeta.
  destruct (rerun_after_success E w Hok) as [Ha Hp].
  by apply download_embedding_settled.
Qed.

Lemma second_run_is_noop_witness :
  let w' := (download_embedding Fixtures.env0 Fixtures.fresh).2 in
  new_events w' (download_embedding Fixtures.env0 w').2
  = [start_notice; done_notice Fixtures.embedding_path].
Proof.
  cbv zeta.
  rewrite (second_run_is_noop Fixtures.env0 Fixtures.fresh eq_refl).
  unfold log_events. cbn [snd]. apply new_events_mk.
Defined.
